(** * Scope-aware identifier filters and variable-declarator transforms

    A shallow embedding of [src/collections/Identifier.js] (the filters
    [isVariable], [isDeclaratorID], [isDeclaredBy]) and of
    [src/collections/VariableDeclarator.js] (the filter [requiresModule] and
    the transforms [renameTo], [removeUnreferenced]).

    JavaScript objects are references: AST nodes, paths and scopes live in a
    store and are named by their address, so that [===] on objects is
    equality of addresses and a mutation is an update of the store. *)

From stdpp Require Import gmap strings list fin_maps.

Set Default Proof Using "Type".
Set Warnings "-clear-no-such-hyp".

(** * The embedding *)

(** ** Outcomes of a JavaScript computation *)

(** The class of a thrown error.  The two modules define no error class
    and have no [throw] statement: what they raise is the [TypeError] of a
    property access on [null] or [undefined].  [ScopeResolutionError] is the
    class that the specification names for a scope walk that fails. *)
Inductive Exn : Type :=
| TypeError
| ScopeResolutionError.

Inductive result (A : Type) : Type :=
| Ok (a : A)         (* normal completion *)
| Throw (e : Exn)    (* an exception propagates to the caller *)
| Stuck              (* a dangling address: no JavaScript heap has one *)
| OutOfFuel.         (* the loop or traversal was cut off *)

Arguments Ok {A} a.
Arguments Throw {A} e.
Arguments Stuck {A}.
Arguments OutOfFuel {A}.

#[global] Instance result_ret : MRet result := @Ok.

#[global] Instance result_bind : MBind result := λ A B f m,
  match m with
  | Ok a => f a
  | Throw e => Throw e
  | Stuck => Stuck
  | OutOfFuel => OutOfFuel
  end.

(** Modelled from the spec: [Collection.filter], of the repository's
    Collection module; "filter a result set by predicate".  It is
    [Array.prototype.filter] on the paths of the collection: the callback,
    which may throw, is run on the paths from left to right. *)
Fixpoint filterM {A : Type} (f : A → result bool) (l : list A) : result (list A) :=
  match l with
  | [] => Ok []
  | x :: l' =>
      b ← f x;
      r ← filterM f l';
      Ok (if (b : bool) then x :: r else r)
  end.

(** Modelled from the spec: [Collection.forEach], of the repository's
    Collection module; "iterate a result set".  The callback, which may
    update the heap and may throw, is run on the paths from left to right. *)
Fixpoint forEachM {S A : Type} (f : S → A → result S) (s : S) (l : list A) : result S :=
  match l with
  | [] => Ok s
  | x :: l' => s' ← f s x; forEachM f s' l'
  end.

(** Pre-order concatenation of the results of a traversal of the children. *)
Fixpoint concatM {A B : Type} (f : A → result (list B)) (l : list A) : result (list B) :=
  match l with
  | [] => Ok []
  | x :: l' => r ← f x; rs ← concatM f l'; Ok (r ++ rs)
  end.

(** ** Data model *)

Abbreviation NodeId := nat (only parsing).
Abbreviation PathId := nat (only parsing).
Abbreviation ScopeId := nat (only parsing).

(** The [type] tag of an AST node: the types that the two modules check,
    the types that ast-types derives from them, and [OtherType tag] for a
    node of any other type, whose tag is none of the names listed. *)
Inductive NodeType : Type :=
| Identifier
| MemberExpression
| Property
| MethodDefinition
| ObjectTypeProperty
| VariableDeclarator
| FunctionDeclaration
| ClassDeclaration
| TypeAlias
| CallExpression
| Literal
| VariableDeclaration
| JSXIdentifier
| JSXMemberExpression
| DeclareTypeAlias
| OtherType (tag : string).

#[global] Instance NodeType_eq_dec : EqDecision NodeType.
Proof. solve_decision. Defined.

(** An AST node: the properties that the two modules read or write, and
    those that hold a declarator or a declaration statement, which removal
    writes.  A property that the node does not have reads as [undefined],
    here [None] ([false] for [computed], [[]] for the arrays). *)
Module Node.
Record t : Type := mk {
  type : NodeType;
  name : option string;
  computed : bool;
  id : option NodeId;
  key : option NodeId;
  property : option NodeId;
  init : option NodeId;
  callee : option NodeId;
  arguments : list NodeId;
  value : option string;
  declarations : list NodeId;
  body : list NodeId
}.

Definition set_name (s : string) (n : t) : t :=
  mk (type n) (Some s) (computed n) (id n) (key n) (property n) (init n)
     (callee n) (arguments n) (value n) (declarations n) (body n).

Definition set_declarations (l : list NodeId) (n : t) : t :=
  mk (type n) (name n) (computed n) (id n) (key n) (property n) (init n)
     (callee n) (arguments n) (value n) l (body n).

Definition set_body (l : list NodeId) (n : t) : t :=
  mk (type n) (name n) (computed n) (id n) (key n) (property n) (init n)
     (callee n) (arguments n) (value n) (declarations n) l.

Definition set_init (i : option NodeId) (n : t) : t :=
  mk (type n) (name n) (computed n) (id n) (key n) (property n) i
     (callee n) (arguments n) (value n) (declarations n) (body n).
End Node.

(** A path (recast's [NodePath]) whose value is a node: [node] is
    [path.node] (and [path.value]), [parent] is [path.parent] ([null] at the
    root), [scope] is [path.scope], and [children] are the paths of the child
    nodes, in the order in which a visitor traverses them. *)
Module Path.
Record t : Type := mk {
  node : NodeId;
  parent : option PathId;
  scope : option ScopeId;
  children : list PathId
}.
End Path.

(** A scope (recast's [Scope]): [path] is the path of the node that
    establishes the scope, [parent] the enclosing scope ([null] at the root),
    [bindings] the names that the scope itself binds. *)
Module Scope.
Record t : Type := mk {
  path : PathId;
  parent : option ScopeId;
  bindings : gset string
}.
End Scope.

Record Store : Type := mkStore {
  nodes : gmap nat Node.t;
  paths : gmap nat Path.t;
  scopes : gmap nat Scope.t
}.

Definition getNode (st : Store) (n : NodeId) : result Node.t :=
  match nodes st !! n with Some x => Ok x | None => Stuck end.

Definition getPath (st : Store) (p : PathId) : result Path.t :=
  match paths st !! p with Some x => Ok x | None => Stuck end.

Definition getScope (st : Store) (s : ScopeId) : result Scope.t :=
  match scopes st !! s with Some x => Ok x | None => Stuck end.

(** The types that a type is derived from in the hierarchy of ast-types,
    where they are declared with [def(...).bases(...)], among the types that
    the two modules check: [def("JSXIdentifier").bases("Identifier")],
    [def("JSXMemberExpression").bases("MemberExpression")] and
    [def("DeclareTypeAlias").bases("TypeAlias")]. *)
Definition bases (T : NodeType) : list NodeType :=
  match T with
  | JSXIdentifier => [Identifier]
  | JSXMemberExpression => [MemberExpression]
  | DeclareTypeAlias => [TypeAlias]
  | _ => []
  end.

(** [namedTypes.T.check(node)], the shallow check: the [type] tag of the
    node is [T] or a type derived from [T]. *)
Definition check (T : NodeType) (n : Node.t) : bool :=
  bool_decide (Node.type n = T) || bool_decide (T ∈ bases (Node.type n)).

(** A JavaScript value used as a property key: [undefined] is the key
    ["undefined"]. *)
Definition propertyKey (name : option string) : string :=
  default "undefined" name.

(** [scope.declares(name)]: [hasOwn.call(this.bindings, name)]. *)
Definition declares (sc : Scope.t) (name : option string) : bool :=
  bool_decide (propertyKey name ∈ Scope.bindings sc).

(** ** Identifier.js *)

(** [path.parent.node]; [path.parent] is [null] at a root path. *)
Definition parentNode (st : Store) (p : Path.t) : result Node.t :=
  match Path.parent p with
  | None => Throw TypeError
  | Some pp => ppr ← getPath st pp; getNode st (Path.node ppr)
  end.

(** [a === path.node] for a property [a] of the parent. *)
Definition same (a : option NodeId) (n : NodeId) : bool :=
  bool_decide (a = Some n).

Definition isVariable (st : Store) (path : PathId) : result bool :=
  p ← getPath st path;
  parent ← parentNode st p;
  if check MemberExpression parent &&
     same (Node.property parent) (Path.node p) &&
     negb (Node.computed parent)
  then Ok false
  else if check Property parent &&
          same (Node.key parent) (Path.node p) &&
          negb (Node.computed parent)
  then Ok false
  else if check MethodDefinition parent &&
          same (Node.key parent) (Path.node p) &&
          negb (Node.computed parent)
  then Ok false
  else if check ObjectTypeProperty parent &&
          same (Node.key parent) (Path.node p)
  then Ok false
  else Ok true.

Definition isDeclaratorID (st : Store) (path : PathId) : result bool :=
  p ← getPath st path;
  parent ← parentNode st p;
  if same (Node.id parent) (Path.node p) &&
     (check VariableDeclarator parent ||
      check FunctionDeclaration parent ||
      check ClassDeclaration parent ||
      check TypeAlias parent)
  then Ok true
  else Ok false.

(** The loop of lines 105-108 and 115-118:
    [while (!scope.declares(name)) scope = scope.parent;]
    Reading [declares] of [null] throws. *)
Fixpoint declaringScopeOf (fuel : nat) (st : Store) (name : option string)
    (scope : option ScopeId) : result ScopeId :=
  match fuel with
  | 0 => OutOfFuel
  | S fuel' =>
      match scope with
      | None => Throw TypeError
      | Some s =>
          sc ← getScope st s;
          if declares sc name then Ok s
          else declaringScopeOf fuel' st name (Scope.parent sc)
      end
  end.

(** [varDeclaratorPath.node.id.name] *)
Definition idName (st : Store) (varDeclaratorPath : PathId) : result (option string) :=
  vp ← getPath st varDeclaratorPath;
  vnode ← getNode st (Path.node vp);
  match Node.id vnode with
  | None => Throw TypeError
  | Some i => idn ← getNode st i; Ok (Node.name idn)
  end.

(** The closure returned by [isDeclaredBy]: it has captured [name] and
    [varDeclaratorScope], and reads the heap when it is called. *)
Definition isDeclaredBy_closure (fuel : nat) (name : option string)
    (varDeclaratorScope : ScopeId) (st : Store) (identPath : PathId) : result bool :=
  v ← isVariable st identPath;
  if negb v then Ok false
  else
    ip ← getPath st identPath;
    scope ← declaringScopeOf fuel st name (Path.scope ip);
    sc ← getScope st scope;
    vds ← getScope st varDeclaratorScope;
    if bool_decide (Scope.path sc = Scope.path vds) then Ok true else Ok false.

Definition isDeclaredBy (fuel : nat) (st : Store) (varDeclaratorPath : PathId)
    : result (Store → PathId → result bool) :=
  name ← idName st varDeclaratorPath;
  vp ← getPath st varDeclaratorPath;
  varDeclaratorScope ← declaringScopeOf fuel st name (Path.scope vp);
  Ok (isDeclaredBy_closure fuel name varDeclaratorScope).

(** ** The collection interface used by VariableDeclarator.js

    A collection is the array of its paths. *)

(** Modelled from the spec: the traversal behind [Collection.find], of the
    repository's Collection module; "restrict a search to the subtree of a
    given Path".  The paths strictly below [path], in pre-order. *)
Fixpoint descendants (fuel : nat) (st : Store) (path : PathId) : result (list PathId) :=
  match fuel with
  | 0 => OutOfFuel
  | S fuel' =>
      p ← getPath st path;
      concatM (λ c, ds ← descendants fuel' st c; Ok (c :: ds)) (Path.children p)
  end.

(** Modelled from the spec: the test that [Collection.find] makes on a path;
    "find nodes of a given type (optionally filtered by a shape predicate)".
    [T.check(path.value) && matchNode(path.value, {name: name})]: the node
    has an own property [name] that is [===] to the wanted one. *)
Definition matches (st : Store) (T : NodeType) (name : option string)
    (path : PathId) : result bool :=
  p ← getPath st path;
  n ← getNode st (Path.node p);
  Ok (check T n && bool_decide (is_Some (Node.name n) ∧ Node.name n = name)).

(** Modelled from the spec: [Collection.fromPaths([root]).find(T, {name})],
    "find nodes of a given type (optionally filtered by a shape predicate)". *)
Definition find (fuel : nat) (st : Store) (root : PathId) (T : NodeType)
    (name : option string) : result (list PathId) :=
  ds ← descendants fuel st root;
  filterM (matches st T name) ds.

(** [child] taken out of its parent node: spliced out of the array that
    holds it ([declarations], or the [body] of a program or block), or
    deleted where it is the [init] (of a [for] statement), which then reads
    as [undefined]. *)
Definition detach (child : NodeId) (n : Node.t) : Node.t :=
  Node.set_init
    (if bool_decide (Node.init n = Some child) then None else Node.init n)
    (Node.set_body (filter (λ c, c ≠ child) (Node.body n))
       (Node.set_declarations (filter (λ c, c ≠ child) (Node.declarations n)) n)).

(** [child] taken out of the child paths of its parent path. *)
Definition detachPath (child : PathId) (p : Path.t) : Path.t :=
  Path.mk (Path.node p) (Path.parent p) (Path.scope p)
          (filter (λ c, c ≠ child) (Path.children p)).

(** The node of [path] taken out of the node of [path.parent]. *)
Definition spliceOut (st : Store) (path : PathId) : result Store :=
  p ← getPath st path;
  match Path.parent p with
  | None => Throw TypeError
  | Some pp =>
      ppr ← getPath st pp;
      _ ← getNode st (Path.node ppr);
      Ok (mkStore (alter (detach (Path.node p)) (Path.node ppr) (nodes st))
                  (alter (detachPath path) pp (paths st))
                  (scopes st))
  end.

(** Modelled from the spec: removal of the node that a path points to, of the
    repository's Node collection and recast's paths; "removing a declarator
    from a multi-declarator statement splices only that declarator,
    preserving the others and preserving the statement if any declarator
    remains; removing the last declarator removes the entire declaration
    statement".  The declarator is spliced out of the [declarations] of its
    statement; a statement left with no declarator is taken out of its own
    parent, where it is a statement of a program or block or the [init] of
    a [for] statement. *)
Definition prune (st : Store) (path : PathId) : result Store :=
  p ← getPath st path;
  st1 ← spliceOut st path;
  match Path.parent p with
  | None => Throw TypeError
  | Some pp =>
      ppr ← getPath st1 pp;
      parent ← getNode st1 (Path.node ppr);
      if check VariableDeclaration parent &&
         bool_decide (Node.declarations parent = [])
      then spliceOut st1 pp
      else Ok st1
  end.

(** Modelled from the spec: [Collection.remove], of the repository's Node
    collection; the nodes of the collection are removed one after the other
    and, as for every chainable method, "the engine returns the same
    query-result-collection abstraction it received". *)
Definition remove (st : Store) (this : list PathId) : result (Store * list PathId) :=
  st' ← forEachM prune st this;
  Ok (st', this).

(** ** VariableDeclarator.js *)

(** [varPath.scope.path] *)
Definition scopePath (st : Store) (varPath : PathId) : result PathId :=
  vp ← getPath st varPath;
  match Path.scope vp with
  | None => Throw TypeError
  | Some s => sc ← getScope st s; Ok (Scope.path sc)
  end.

(** [path.get('name').replace(newName)] *)
Definition replaceName (newName : string) (st : Store) (path : PathId) : result Store :=
  p ← getPath st path;
  _ ← getNode st (Path.node p);
  Ok (mkStore (alter (Node.set_name newName) (Path.node p) (nodes st))
              (paths st) (scopes st)).

(** The identifiers that the callback of [renameTo] renames for [varPath]. *)
Definition renameTargets (fuel : nat) (st : Store) (varPath : PathId)
    : result (list PathId) :=
  oldName ← idName st varPath;
  root ← scopePath st varPath;
  found ← find fuel st root Identifier oldName;
  declaredBy ← isDeclaredBy fuel st varPath;
  filterM (declaredBy st) found.

(** The callback of [renameTo], lines 496-502. *)
Definition renameDeclarator (fuel : nat) (newName : string) (st : Store)
    (varPath : PathId) : result Store :=
  targets ← renameTargets fuel st varPath;
  forEachM (replaceName newName) st targets.

Definition renameTo (fuel : nat) (newName : string) (st : Store)
    (this : list PathId) : result (Store * list PathId) :=
  st' ← forEachM (renameDeclarator fuel newName) st this;
  Ok (st', this).

(** JavaScript truthiness of a string or [undefined]. *)
Definition truthy (name : option string) : bool :=
  match name with
  | None => false
  | Some s => negb (String.eqb s "")
  end.

(** The chain [find(...).filter(path => !isDeclaratorID(path))
    .filter(isDeclaredBy(varPath))] of lines 523-526. *)
Definition references (fuel : nat) (st : Store) (varPath : PathId)
    (name : option string) : result (list PathId) :=
  root ← scopePath st varPath;
  found ← find fuel st root Identifier name;
  uses ← filterM (λ path, b ← isDeclaratorID st path; Ok (negb b)) found;
  declaredBy ← isDeclaredBy fuel st varPath;
  filterM (declaredBy st) uses.

(** The callback of the filter of [removeUnreferenced], lines 512-528. *)
Definition unreferenced (fuel : nat) (st : Store) (varPath : PathId) : result bool :=
  name ← idName st varPath;
  if negb (truthy name) then Ok false
  else
    refs ← references fuel st varPath name;
    Ok (bool_decide (0 = length refs)).

Definition removeUnreferenced (fuel : nat) (st : Store) (this : list PathId)
    : result (Store * list PathId) :=
  selected ← filterM (unreferenced fuel st) this;
  remove st selected.

(** Nodes made by the builders [b.identifier(name)] and [b.literal(value)]. *)
Inductive Built : Type :=
| BIdentifier (name : string)
| BLiteral (value : string).

(** The [names] argument of [requiresModule]: absent, a module name, or an
    array of module names. *)
Inductive Names : Type :=
| NoNames
| OneName (n : string)
| ManyNames (ns : list string).

(** JavaScript truthiness of [names]: an array is truthy even when empty. *)
Definition namesTruthy (names : Names) : bool :=
  match names with
  | NoNames => false
  | OneName n => truthy (Some n)
  | ManyNames _ => true
  end.

Definition isArray (names : Names) : bool :=
  match names with ManyNames _ => true | _ => false end.

(** The elements of [names] once it is an array. *)
Definition elementsOf (names : Names) : list string :=
  match names with ManyNames ns => ns | _ => [] end.

Section RequiresModule.
(** recast's [astNodesAreEquivalent(a, b)] for a value [a] read from the
    tree ([undefined] is [None]) and a freshly built node [b]. *)
Variable astNodesAreEquivalent : Store → option NodeId → Built → bool.

Definition requiresModule (names : Names) (st : Store) (path : PathId) : result bool :=
  let names :=
    if namesTruthy names && negb (isArray names)
    then match names with OneName n => ManyNames [n] | _ => names end
    else names in
  let requireIdentifier := BIdentifier "require" in
  p ← getPath st path;
  node ← getNode st (Path.node p);
  if negb (check VariableDeclarator node) then Ok false
  else
    match Node.init node with
    | None => Ok false
    | Some i =>
        init ← getNode st i;
        if negb (check CallExpression init) ||
           negb (astNodesAreEquivalent st (Node.callee init) requireIdentifier)
        then Ok false
        else
          Ok (negb (namesTruthy names) ||
              existsb (λ n, astNodesAreEquivalent st (head (Node.arguments init))
                                                  (BLiteral n))
                      (elementsOf names))
    end.

(** The node of [path] is a variable declarator whose [init] is a call of
    the bare identifier [require] and, when names are given, whose first
    argument is equivalent to the literal of one of them. *)
Definition requireDeclarator (st : Store) (path : PathId)
    (given : option (list string)) : Prop :=
  ∃ p node i init,
    paths st !! path = Some p ∧ nodes st !! Path.node p = Some node ∧
    Node.type node = VariableDeclarator ∧
    Node.init node = Some i ∧ nodes st !! i = Some init ∧
    Node.type init = CallExpression ∧
    astNodesAreEquivalent st (Node.callee init) (BIdentifier "require") = true ∧
    match given with
    | None => True
    | Some ns =>
        ∃ n, n ∈ ns ∧
             astNodesAreEquivalent st (head (Node.arguments init)) (BLiteral n) = true
    end.
End RequiresModule.

(** Structural comparison of a node of the tree with a built identifier or
    string literal: same [type], same [name] or [value]. *)
Definition structurallyEqual (st : Store) (a : option NodeId) (b : Built) : bool :=
  match a with
  | None => false
  | Some i =>
      match nodes st !! i with
      | None => false
      | Some n =>
          match b with
          | BIdentifier s =>
              bool_decide (Node.type n = Identifier) &&
              bool_decide (Node.name n = Some s)
          | BLiteral v =>
              bool_decide (Node.type n = Literal) &&
              bool_decide (Node.value n = Some v)
          end
      end
  end.

(** ** Sample programs *)

Module Sample.
Definition blank (ty : NodeType) : Node.t :=
  Node.mk ty None false None None None None None [] None [] [].
Definition ident (s : string) : Node.t :=
  Node.mk Identifier (Some s) false None None None None None [] None [] [].
Definition literal (v : string) : Node.t :=
  Node.mk Literal None false None None None None None [] (Some v) [] [].
Definition declarator (i : NodeId) (init : option NodeId) : Node.t :=
  Node.mk VariableDeclarator None false (Some i) None None init None [] None [] [].
Definition declaration (ds : list NodeId) : Node.t :=
  Node.mk VariableDeclaration None false None None None None None [] None ds [].
Definition block (tag : string) (b : list NodeId) : Node.t :=
  Node.mk (OtherType tag) None false None None None None None [] None [] b.
Definition call (c : NodeId) (args : list NodeId) : Node.t :=
  Node.mk CallExpression None false None None None None (Some c) args None [] [].
Definition member (prop : NodeId) (comp : bool) : Node.t :=
  Node.mk MemberExpression None comp None None (Some prop) None None [] None [] [].
Definition keyed (ty : NodeType) (k : NodeId) : Node.t :=
  Node.mk ty None false None (Some k) None None None [] None [] [].
Definition named (ty : NodeType) (i : NodeId) : Node.t :=
  Node.mk ty None false (Some i) None None None None [] None [] [].
Definition jsxIdent (s : string) : Node.t :=
  Node.mk JSXIdentifier (Some s) false None None None None None [] None [] [].
Definition jsxMember (prop : NodeId) : Node.t :=
  Node.mk JSXMemberExpression None false None None (Some prop) None None [] None [] [].
Definition forStatement (init : option NodeId) : Node.t :=
  Node.mk (OtherType "ForStatement") None false None None None init None [] None [] [].

(** [var x = 3, y = 4; f(y);] -- path [i] points to node [i]. *)
Definition unused : Store := mkStore
  (list_to_map [
     (0, block "Program" [1; 8]);
     (1, declaration [2; 5]);
     (2, declarator 3 (Some 4)); (3, ident "x"); (4, literal "3");
     (5, declarator 6 (Some 7)); (6, ident "y"); (7, literal "4");
     (8, blank (OtherType "ExpressionStatement"));
     (9, call 10 [11]); (10, ident "f"); (11, ident "y")])
  (list_to_map [
     (0, Path.mk 0 None (Some 0) [1; 8]);
     (1, Path.mk 1 (Some 0) (Some 0) [2; 5]);
     (2, Path.mk 2 (Some 1) (Some 0) [3; 4]);
     (3, Path.mk 3 (Some 2) (Some 0) []);
     (4, Path.mk 4 (Some 2) (Some 0) []);
     (5, Path.mk 5 (Some 1) (Some 0) [6; 7]);
     (6, Path.mk 6 (Some 5) (Some 0) []);
     (7, Path.mk 7 (Some 5) (Some 0) []);
     (8, Path.mk 8 (Some 0) (Some 0) [9]);
     (9, Path.mk 9 (Some 8) (Some 0) [10; 11]);
     (10, Path.mk 10 (Some 9) (Some 0) []);
     (11, Path.mk 11 (Some 9) (Some 0) [])])
  (list_to_map [(0, Scope.mk 0 None {["x"; "y"]})]).

(** [[
    var bar = require("module");
    function func(bar) { bar; }
    foo.bar();
    foo[bar]();
    bar.foo();
    ]]
    Scope 0 is the program's, scope 1 the function's. *)
Definition shadow : Store := mkStore
  (list_to_map [
     (0, block "Program" [1; 7; 13; 18; 23]);
     (1, declaration [2]);
     (2, declarator 3 (Some 4)); (3, ident "bar");
     (4, call 5 [6]); (5, ident "require"); (6, literal "module");
     (7, named FunctionDeclaration 8); (8, ident "func"); (9, ident "bar");
     (10, block "BlockStatement" [11]);
     (11, blank (OtherType "ExpressionStatement")); (12, ident "bar");
     (13, blank (OtherType "ExpressionStatement"));
     (14, call 15 []); (15, member 17 false); (16, ident "foo"); (17, ident "bar");
     (18, blank (OtherType "ExpressionStatement"));
     (19, call 20 []); (20, member 22 true); (21, ident "foo"); (22, ident "bar");
     (23, blank (OtherType "ExpressionStatement"));
     (24, call 25 []); (25, member 27 false); (26, ident "bar"); (27, ident "foo")])
  (list_to_map [
     (0, Path.mk 0 None (Some 0) [1; 7; 13; 18; 23]);
     (1, Path.mk 1 (Some 0) (Some 0) [2]);
     (2, Path.mk 2 (Some 1) (Some 0) [3; 4]);
     (3, Path.mk 3 (Some 2) (Some 0) []);
     (4, Path.mk 4 (Some 2) (Some 0) [5; 6]);
     (5, Path.mk 5 (Some 4) (Some 0) []);
     (6, Path.mk 6 (Some 4) (Some 0) []);
     (7, Path.mk 7 (Some 0) (Some 1) [8; 9; 10]);
     (8, Path.mk 8 (Some 7) (Some 1) []);
     (9, Path.mk 9 (Some 7) (Some 1) []);
     (10, Path.mk 10 (Some 7) (Some 1) [11]);
     (11, Path.mk 11 (Some 10) (Some 1) [12]);
     (12, Path.mk 12 (Some 11) (Some 1) []);
     (13, Path.mk 13 (Some 0) (Some 0) [14]);
     (14, Path.mk 14 (Some 13) (Some 0) [15]);
     (15, Path.mk 15 (Some 14) (Some 0) [16; 17]);
     (16, Path.mk 16 (Some 15) (Some 0) []);
     (17, Path.mk 17 (Some 15) (Some 0) []);
     (18, Path.mk 18 (Some 0) (Some 0) [19]);
     (19, Path.mk 19 (Some 18) (Some 0) [20]);
     (20, Path.mk 20 (Some 19) (Some 0) [21; 22]);
     (21, Path.mk 21 (Some 20) (Some 0) []);
     (22, Path.mk 22 (Some 20) (Some 0) []);
     (23, Path.mk 23 (Some 0) (Some 0) [24]);
     (24, Path.mk 24 (Some 23) (Some 0) [25]);
     (25, Path.mk 25 (Some 24) (Some 0) [26; 27]);
     (26, Path.mk 26 (Some 25) (Some 0) []);
     (27, Path.mk 27 (Some 25) (Some 0) [])])
  (list_to_map [
     (0, Scope.mk 0 None {["bar"; "func"]});
     (1, Scope.mk 7 (Some 0) {["bar"]})]).

(** [[
    try {} catch (e) { var x = 1; }
    g(x);
    ]]
    Scope 0 is the program's and binds the hoisted [x]; scope 1 is the
    catch clause's and binds [e] only, yet it is the scope of the paths
    inside the clause. *)
Definition catchVar : Store := mkStore
  (list_to_map [
     (0, block "Program" [1; 10]);
     (1, blank (OtherType "TryStatement"));
     (2, block "BlockStatement" []);
     (3, blank (OtherType "CatchClause")); (4, ident "e");
     (5, block "BlockStatement" [6]);
     (6, declaration [7]);
     (7, declarator 8 (Some 9)); (8, ident "x"); (9, literal "1");
     (10, blank (OtherType "ExpressionStatement"));
     (11, call 12 [13]); (12, ident "g"); (13, ident "x")])
  (list_to_map [
     (0, Path.mk 0 None (Some 0) [1; 10]);
     (1, Path.mk 1 (Some 0) (Some 0) [2; 3]);
     (2, Path.mk 2 (Some 1) (Some 0) []);
     (3, Path.mk 3 (Some 1) (Some 1) [4; 5]);
     (4, Path.mk 4 (Some 3) (Some 1) []);
     (5, Path.mk 5 (Some 3) (Some 1) [6]);
     (6, Path.mk 6 (Some 5) (Some 1) [7]);
     (7, Path.mk 7 (Some 6) (Some 1) [8; 9]);
     (8, Path.mk 8 (Some 7) (Some 1) []);
     (9, Path.mk 9 (Some 7) (Some 1) []);
     (10, Path.mk 10 (Some 0) (Some 0) [11]);
     (11, Path.mk 11 (Some 10) (Some 0) [12; 13]);
     (12, Path.mk 12 (Some 11) (Some 0) []);
     (13, Path.mk 13 (Some 11) (Some 0) [])])
  (list_to_map [
     (0, Scope.mk 0 None {["x"]});
     (1, Scope.mk 3 (Some 0) {["e"]})]).

(** [var {a} = obj, z = 1;] -- the first declarator's [id] is an object
    pattern, which has no [name]. *)
Definition destructured : Store := mkStore
  (list_to_map [
     (0, block "Program" [1]);
     (1, declaration [2; 7]);
     (2, declarator 3 (Some 6));
     (3, blank (OtherType "ObjectPattern"));
     (4, keyed Property 5); (5, ident "a"); (6, ident "obj");
     (7, declarator 8 (Some 9)); (8, ident "z"); (9, literal "1")])
  (list_to_map [
     (0, Path.mk 0 None (Some 0) [1]);
     (1, Path.mk 1 (Some 0) (Some 0) [2; 7]);
     (2, Path.mk 2 (Some 1) (Some 0) [3; 6]);
     (3, Path.mk 3 (Some 2) (Some 0) [4]);
     (4, Path.mk 4 (Some 3) (Some 0) [5]);
     (5, Path.mk 5 (Some 4) (Some 0) []);
     (6, Path.mk 6 (Some 2) (Some 0) []);
     (7, Path.mk 7 (Some 1) (Some 0) [8; 9]);
     (8, Path.mk 8 (Some 7) (Some 0) []);
     (9, Path.mk 9 (Some 7) (Some 0) [])])
  (list_to_map [(0, Scope.mk 0 None {["a"; "z"]})]).

(** [var Foo = 1; <Foo.bar/>;] -- the name of the element is a JSX member
    expression (node 8) of the JSX identifiers [Foo] (node 9) and [bar]
    (node 10). *)
Definition jsx : Store := mkStore
  (list_to_map [
     (0, block "Program" [1; 5]);
     (1, declaration [2]);
     (2, declarator 3 (Some 4)); (3, ident "Foo"); (4, literal "1");
     (5, blank (OtherType "ExpressionStatement"));
     (6, blank (OtherType "JSXElement"));
     (7, blank (OtherType "JSXOpeningElement"));
     (8, jsxMember 10); (9, jsxIdent "Foo"); (10, jsxIdent "bar")])
  (list_to_map [
     (0, Path.mk 0 None (Some 0) [1; 5]);
     (1, Path.mk 1 (Some 0) (Some 0) [2]);
     (2, Path.mk 2 (Some 1) (Some 0) [3; 4]);
     (3, Path.mk 3 (Some 2) (Some 0) []);
     (4, Path.mk 4 (Some 2) (Some 0) []);
     (5, Path.mk 5 (Some 0) (Some 0) [6]);
     (6, Path.mk 6 (Some 5) (Some 0) [7]);
     (7, Path.mk 7 (Some 6) (Some 0) [8]);
     (8, Path.mk 8 (Some 7) (Some 0) [9; 10]);
     (9, Path.mk 9 (Some 8) (Some 0) []);
     (10, Path.mk 10 (Some 8) (Some 0) [])])
  (list_to_map [(0, Scope.mk 0 None {["Foo"]})]).

(** [var x = 1; declare type x = number;] -- node 5 is a
    [DeclareTypeAlias], whose [id] is node 6. *)
Definition declaredAlias : Store := mkStore
  (list_to_map [
     (0, block "Program" [1; 5]);
     (1, declaration [2]);
     (2, declarator 3 (Some 4)); (3, ident "x"); (4, literal "1");
     (5, named DeclareTypeAlias 6); (6, ident "x");
     (7, blank (OtherType "NumberTypeAnnotation"))])
  (list_to_map [
     (0, Path.mk 0 None (Some 0) [1; 5]);
     (1, Path.mk 1 (Some 0) (Some 0) [2]);
     (2, Path.mk 2 (Some 1) (Some 0) [3; 4]);
     (3, Path.mk 3 (Some 2) (Some 0) []);
     (4, Path.mk 4 (Some 2) (Some 0) []);
     (5, Path.mk 5 (Some 0) (Some 0) [6; 7]);
     (6, Path.mk 6 (Some 5) (Some 0) []);
     (7, Path.mk 7 (Some 5) (Some 0) [])])
  (list_to_map [(0, Scope.mk 0 None {["x"]})]).

(** [for (var i = 0;;) {}] -- the declaration (node 2) is the [init] of the
    [for] statement (node 1). *)
Definition forLoop : Store := mkStore
  (list_to_map [
     (0, block "Program" [1]);
     (1, forStatement (Some 2));
     (2, declaration [3]);
     (3, declarator 4 (Some 5)); (4, ident "i"); (5, literal "0");
     (6, block "BlockStatement" [])])
  (list_to_map [
     (0, Path.mk 0 None (Some 0) [1]);
     (1, Path.mk 1 (Some 0) (Some 0) [2; 6]);
     (2, Path.mk 2 (Some 1) (Some 0) [3]);
     (3, Path.mk 3 (Some 2) (Some 0) [4; 5]);
     (4, Path.mk 4 (Some 3) (Some 0) []);
     (5, Path.mk 5 (Some 3) (Some 0) []);
     (6, Path.mk 6 (Some 1) (Some 0) [])])
  (list_to_map [(0, Scope.mk 0 None {["i"]})]).
End Sample.

(** ** The syntactic role of an identifier *)

(** [kindOf n T]: the node [n] is a [T] for ast-types: it is tagged [T],
    or it is a JSX identifier and [T] is [Identifier], a JSX member
    expression and [T] is [MemberExpression], or a [declare type] and [T]
    is [TypeAlias]. *)
Definition kindOf (n : Node.t) (T : NodeType) : Prop :=
  Node.type n = T ∨
  (Node.type n = JSXIdentifier ∧ T = Identifier) ∨
  (Node.type n = JSXMemberExpression ∧ T = MemberExpression) ∨
  (Node.type n = DeclareTypeAlias ∧ T = TypeAlias).

(** The four name-only positions of the node [n] under its parent node:
    [obj.n] (and the [n] of the JSX element name [<obj.n/>]), [{ n: 3 }],
    [class A { n() {} }] and [type t = { n: T }]. *)
Definition nameOnly (parent : Node.t) (n : NodeId) : Prop :=
  ((Node.type parent = MemberExpression ∨ Node.type parent = JSXMemberExpression) ∧
   Node.property parent = Some n ∧ Node.computed parent = false) ∨
  (Node.type parent = Property ∧ Node.key parent = Some n ∧
   Node.computed parent = false) ∨
  (Node.type parent = MethodDefinition ∧ Node.key parent = Some n ∧
   Node.computed parent = false) ∨
  (Node.type parent = ObjectTypeProperty ∧ Node.key parent = Some n).

(** The binding positions of [isDeclaratorID]: the [id] of a variable
    declarator, function declaration, class declaration or type alias, a
    type alias of a [declare type] statement included. *)
Definition bindingPosition (parent : Node.t) (n : NodeId) : Prop :=
  Node.id parent = Some n ∧
  (Node.type parent = VariableDeclarator ∨ Node.type parent = FunctionDeclaration ∨
   Node.type parent = ClassDeclaration ∨ Node.type parent = TypeAlias ∨
   Node.type parent = DeclareTypeAlias).

(** The parent node of a path, as the filters read it. *)
Definition hasParentNode (st : Store) (path : PathId) (p : Path.t) (parent : Node.t) : Prop :=
  paths st !! path = Some p ∧
  ∃ pp ppr, Path.parent p = Some pp ∧ paths st !! pp = Some ppr ∧
            nodes st !! Path.node ppr = Some parent.

(** ** The upward walk through the scopes *)

(** [chain st start l]: [l] lists the scopes from [start] up to the root,
    whose parent is [null]; the chain is finite and ends. *)
Inductive chain (st : Store) : option ScopeId → list ScopeId → Prop :=
| chain_root : chain st None []
| chain_step s sc l :
    scopes st !! s = Some sc →
    chain st (Scope.parent sc) l →
    chain st (Some s) (s :: l).

(** [s] declares [name] in the store. *)
Definition declaresAt (st : Store) (name : option string) (s : ScopeId) : Prop :=
  ∃ sc, scopes st !! s = Some sc ∧ declares sc name = true.

(** [declaring st name start s]: [s] is the first scope, from [start]
    upward and [start] included, that declares [name]. *)
Inductive declaring (st : Store) (name : option string) : option ScopeId → ScopeId → Prop :=
| declaring_here s sc :
    scopes st !! s = Some sc → declares sc name = true →
    declaring st name (Some s) s
| declaring_up s sc r :
    scopes st !! s = Some sc → declares sc name = false →
    declaring st name (Scope.parent sc) r →
    declaring st name (Some s) r.

(** The number of steps that the walk makes before it stops at the
    declaring scope. *)
Inductive declaringIn (st : Store) (name : option string) : option ScopeId → ScopeId → nat → Prop :=
| declaringIn_here s sc :
    scopes st !! s = Some sc → declares sc name = true →
    declaringIn st name (Some s) s 0
| declaringIn_up s sc r n :
    scopes st !! s = Some sc → declares sc name = false →
    declaringIn st name (Scope.parent sc) r n →
    declaringIn st name (Some s) r (S n).

(** The claim, as it is stated: from some fuel on, the walk fails with a
    [ScopeResolutionError]. *)
Definition raisesScopeResolutionError (st : Store) (name : option string)
    (start : option ScopeId) : Prop :=
  ∃ n, ∀ fuel, n < fuel →
    declaringScopeOf fuel st name start = Throw ScopeResolutionError.

(** ** The matcher *)

(** A scope is the scope of one path: recast makes a scope for the path of
    the node that establishes it, once. *)
Definition scopePathsInjective (st : Store) : Prop :=
  ∀ s1 s2 sc1 sc2,
    scopes st !! s1 = Some sc1 → scopes st !! s2 = Some sc2 →
    Scope.path sc1 = Scope.path sc2 → s1 = s2.

(** ** Searching a subtree *)

(** [below st r d]: the path [d] is strictly below the path [r]. *)
Inductive below (st : Store) : PathId → PathId → Prop :=
| below_child r rp c :
    paths st !! r = Some rp → c ∈ Path.children rp → below st r c
| below_deeper r rp c d :
    paths st !! r = Some rp → c ∈ Path.children rp → below st c d →
    below st r d.

(** The node of [P] is a [T] -- for [Identifier], an identifier or a JSX
    identifier -- and has the name [name]. *)
Definition nodeNamed (st : Store) (T : NodeType) (name : option string) (P : PathId) : Prop :=
  ∃ p n, paths st !! P = Some p ∧ nodes st !! Path.node p = Some n ∧
         kindOf n T ∧ Node.name n = name ∧ is_Some name.

(** ** Renaming *)

(** The nodes that a list of paths points to. *)
Definition nodesOf (st : Store) (l : list PathId) : list NodeId :=
  omap (λ P, Path.node <$> paths st !! P) l.

(** [Sample.shadow] after the declarator of [bar] is renamed to [xyz]. *)
Definition shadowRenamed : Store :=
  Eval vm_compute in
    match renameDeclarator 10 "xyz" Sample.shadow 2 with
    | Ok st' => st'
    | _ => Sample.shadow
    end.

(** [Sample.jsx] after the declarator of [Foo] is renamed to [Bar]. *)
Definition jsxRenamed : Store :=
  Eval vm_compute in
    match renameDeclarator 10 "Bar" Sample.jsx 2 with
    | Ok st' => st'
    | _ => Sample.jsx
    end.

(** ** Removing nodes *)

(** [attached st D]: the node of the path [D] is among the [declarations]
    of the node of its parent path. *)
Definition attached (st : Store) (D : PathId) : bool :=
  match paths st !! D with
  | None => false
  | Some dp =>
      match Path.parent dp with
      | None => false
      | Some pp =>
          match paths st !! pp with
          | None => false
          | Some ppr =>
              match nodes st !! Path.node ppr with
              | None => false
              | Some n => bool_decide (Path.node dp ∈ Node.declarations n)
              end
          end
      end
  end.

(** What a path points to: its node, its parent and its scope. *)
Definition pathLinks (p : Path.t) : NodeId * option PathId * option ScopeId :=
  (Path.node p, Path.parent p, Path.scope p).

(** What every removal preserves: the scopes, the links of the paths, the
    types of the nodes; and [declarations] only lose elements. *)
Record shrinks (st st' : Store) : Prop := mkShrinks {
  shrinks_scopes : scopes st' = scopes st;
  shrinks_paths : ∀ P, pathLinks <$> paths st' !! P = pathLinks <$> paths st !! P;
  shrinks_types : ∀ i, Node.type <$> nodes st' !! i = Node.type <$> nodes st !! i;
  shrinks_declarations : ∀ i n n' c,
    nodes st !! i = Some n → nodes st' !! i = Some n' →
    c ∈ Node.declarations n' → c ∈ Node.declarations n
}.

(** [keeps c st st']: no node loses the declaration [c]. *)
Definition keeps (c : NodeId) (st st' : Store) : Prop :=
  ∀ i n n', nodes st !! i = Some n → nodes st' !! i = Some n' →
            c ∈ Node.declarations n → c ∈ Node.declarations n'.

(** ** Unreferenced declarators *)

(** [Sample.unused] after [removeUnreferenced] on its two declarators. *)
Definition unusedPruned : Store :=
  Eval vm_compute in
    match removeUnreferenced 10 Sample.unused [2; 5] with
    | Ok r => r.1
    | _ => Sample.unused
    end.

(** [Sample.destructured] after [removeUnreferenced] on its two
    declarators. *)
Definition destructuredPruned : Store :=
  Eval vm_compute in
    match removeUnreferenced 10 Sample.destructured [2; 7] with
    | Ok r => r.1
    | _ => Sample.destructured
    end.

(** [Sample.declaredAlias] after [removeUnreferenced] on its declarator. *)
Definition declaredAliasPruned : Store :=
  Eval vm_compute in
    match removeUnreferenced 10 Sample.declaredAlias [2] with
    | Ok r => r.1
    | _ => Sample.declaredAlias
    end.

(** ** The value of [removeUnreferenced] *)

(** The claim, as it is stated: the returned collection holds exactly the
    declarators of the input that are still in place. *)
Definition returnsSurvivors (this : list PathId) (st' : Store)
    (returned : list PathId) : Prop :=
  ∀ D, D ∈ returned ↔ D ∈ this ∧ attached st' D = true.

(** ** Completion *)

(** [height st P n]: the paths below [P] are in the store and at most [n]
    levels deep. *)
Inductive height (st : Store) : PathId → nat → Prop :=
| height_intro P p n :
    paths st !! P = Some p →
    (∀ c, c ∈ Path.children p → height st c n) →
    height st P (S n).

(** What the search for the references of [D], named [name], needs in order
    to complete: a scope with a path, a finite subtree below it whose paths
    have nodes and parent nodes, and a declaring scope for [D] and for every
    candidate in a variable position -- the contract of the callers of the
    upward walk. *)
Record searchable (st : Store) (D : PathId) (name : option string) : Prop := mkSearchable {
  searchable_root : ∃ root n, scopePath st D = Ok root ∧ height st root n ∧
    ∀ P, below st root P →
      (∃ p m, paths st !! P = Some p ∧ nodes st !! Path.node p = Some m) ∧
      (nodeNamed st Identifier name P →
         (∃ p parent, hasParentNode st P p parent) ∧
         (isVariable st P = Ok true →
            ∃ ip s, paths st !! P = Some ip ∧ declaring st name (Path.scope ip) s));
  searchable_declared : ∃ dp sD, paths st !! D = Some dp ∧
    declaring st name (Path.scope dp) sD
}.

(** What [prune] needs: a parent path and a grandparent path, with nodes. *)
Definition prunable (st : Store) (q : PathId) : Prop :=
  ∃ qp pp ppr gp gpr,
    paths st !! q = Some qp ∧ Path.parent qp = Some pp ∧
    paths st !! pp = Some ppr ∧ is_Some (nodes st !! Path.node ppr) ∧
    Path.parent ppr = Some gp ∧
    paths st !! gp = Some gpr ∧ is_Some (nodes st !! Path.node gpr).

(** ** The root of the search *)

(** [isDeclaredBy(D)(P)] *)
Definition declaredByAt (fuel : nat) (st : Store) (D P : PathId) : result bool :=
  declaredBy ← isDeclaredBy fuel st D;
  declaredBy st P.

(** [Sample.catchVar] after the declarator of [x] is renamed to [z]. *)
Definition catchVarRenamed : Store :=
  Eval vm_compute in
    match renameDeclarator 10 "z" Sample.catchVar 7 with
    | Ok st' => st'
    | _ => Sample.catchVar
    end.

(** ** Which identifiers are renamed *)

(** The claim, as it is stated: every identifier below the searched root on
    which the predicate of [isDeclaredBy] answers [true] gets the new
    name. *)
Definition renamesEverySatisfying (fuel : nat) (newName : string) (st : Store)
    (D : PathId) (st' : Store) : Prop :=
  ∀ root declaredBy P p n,
    scopePath st D = Ok root → isDeclaredBy fuel st D = Ok declaredBy →
    below st root P → paths st !! P = Some p →
    nodes st !! Path.node p = Some n → Node.type n = Identifier →
    declaredBy st P = Ok true →
    Node.name <$> nodes st' !! Path.node p = Some (Some newName).

(** ** requiresModule *)

(** The module names that the call gives, as the code reads them: a string
    is a one-element list unless it is empty, and the empty string is as
    good as no argument. *)
Definition namesGiven (names : Names) : option (list string) :=
  match names with
  | NoNames => None
  | OneName n => if truthy (Some n) then Some [n] else None
  | ManyNames ns => Some ns
  end.

(** The module names that the call gives, as the claim reads them. *)
Definition namesAsStated (names : Names) : option (list string) :=
  match names with
  | NoNames => None
  | OneName n => Some [n]
  | ManyNames ns => Some ns
  end.

(** ** What [renameTo] may change *)

(** [onlyRenamed newName st st']: the two stores have the same paths and
    scopes, and every node of [st'] is the node of [st] at the same
    address, or that node with [newName] as its [name]. *)
Definition onlyRenamed (newName : string) (st st' : Store) : Prop :=
  paths st' = paths st ∧ scopes st' = scopes st ∧
  ∀ i, nodes st' !! i = nodes st !! i ∨
       nodes st' !! i = Node.set_name newName <$> nodes st !! i.

(** ** What [removeUnreferenced] may change *)

(** [prunedNode n n']: [n'] is [n] with elements taken out of its
    [declarations] and of its [body], possibly without its [init], and
    nothing else changed. *)
Definition prunedNode (n n' : Node.t) : Prop :=
  ∃ ds b i,
    ds `sublist_of` Node.declarations n ∧ b `sublist_of` Node.body n ∧
    (i = Node.init n ∨ i = None) ∧
    n' = Node.set_init i (Node.set_body b (Node.set_declarations ds n)).

(** [onlyPruned st st']: the same scopes, the same links of the paths, the
    same addresses of nodes, and every node pruned. *)
Definition onlyPruned (st st' : Store) : Prop :=
  scopes st' = scopes st ∧
  (∀ P, pathLinks <$> paths st' !! P = pathLinks <$> paths st !! P) ∧
  ∀ i, (nodes st !! i = None ∧ nodes st' !! i = None) ∨
       ∃ n n', nodes st !! i = Some n ∧ nodes st' !! i = Some n' ∧ prunedNode n n'.

(** [declarationHeld st D]: the node of [D] is among the [declarations] of
    a declaration statement -- the node of the parent path of [D] -- which
    is a statement in the [body] of a program or block, or the [init] of a
    [for] statement. *)
Definition declarationHeld (st : Store) (D : PathId) : Prop :=
  ∃ dp pp ppr d gp gpr g,
    paths st !! D = Some dp ∧ Path.parent dp = Some pp ∧
    paths st !! pp = Some ppr ∧ nodes st !! Path.node ppr = Some d ∧
    Node.type d = VariableDeclaration ∧ Path.node dp ∈ Node.declarations d ∧
    Path.parent ppr = Some gp ∧
    paths st !! gp = Some gpr ∧ nodes st !! Path.node gpr = Some g ∧
    (Path.node ppr ∈ Node.body g ∨ Node.init g = Some (Path.node ppr)).

(** [Sample.forLoop] after [removeUnreferenced] on its declarator. *)
Definition forLoopPruned : Store :=
  Eval vm_compute in
    match removeUnreferenced 10 Sample.forLoop [3] with
    | Ok r => r.1
    | _ => Sample.forLoop
    end.

(** ** VariableDeclarator.js: findVariableDeclarators *)

(** Modelled from the spec: the test that [Collection.find] makes on a path
    for [find(VariableDeclarator, filter)], where [filter] is [null] or
    [{id: {name: name}}]; "find nodes of a given type (optionally filtered
    by a shape predicate)".  With a filter, the node must have an [id] that
    has an own property [name] that is [===] to the wanted one. *)
Definition matchesDeclarator (st : Store) (filter : option string)
    (path : PathId) : result bool :=
  p ← getPath st path;
  n ← getNode st (Path.node p);
  if negb (check VariableDeclarator n) then Ok false
  else
    match filter with
    | None => Ok true
    | Some name =>
        match Node.id n with
        | None => Ok false
        | Some i => idn ← getNode st i; Ok (bool_decide (Node.name idn = Some name))
        end
    end.

(** [findVariableDeclarators(name)], lines 450-453: the filter is
    [name ? {id: {name: name}} : null], and [this.find] searches below each
    path of the collection, in order. *)
Definition findVariableDeclarators (fuel : nat) (st : Store) (this : list PathId)
    (name : option string) : result (list PathId) :=
  let filter := if truthy name then name else None in
  concatM (λ root, ds ← descendants fuel st root;
                   filterM (matchesDeclarator st filter) ds) this.

(** The node of [P] is a variable declarator and, when a name is wanted,
    its [id] has that name. *)
Definition declaratorNamed (st : Store) (filter : option string) (P : PathId) : Prop :=
  ∃ p n, paths st !! P = Some p ∧ nodes st !! Path.node p = Some n ∧
         Node.type n = VariableDeclarator ∧
         match filter with
         | None => True
         | Some name =>
             ∃ i idn, Node.id n = Some i ∧ nodes st !! i = Some idn ∧
                      Node.name idn = Some name
         end.

(** ** The argument of a call *)

(** [node.init.arguments[0]] for the node of [path]. *)
Definition firstArgument (st : Store) (path : PathId) : option NodeId :=
  p ← paths st !! path;
  node ← nodes st !! Path.node p;
  i ← Node.init node;
  init ← nodes st !! i;
  head (Node.arguments init).

(** * Properties *)

(** ** Reasoning about outcomes *)

Lemma bind_Ok {A B : Type} (m : result A) (f : A → result B) (b : B) :
  m ≫= f = Ok b ↔ ∃ a, m = Ok a ∧ f a = Ok b.
Proof. destruct m; simpl; naive_solver. Qed.

Lemma getNode_Ok st n x : getNode st n = Ok x ↔ nodes st !! n = Some x.
Proof. unfold getNode. destruct (nodes st !! n); naive_solver. Qed.

Lemma getPath_Ok st p x : getPath st p = Ok x ↔ paths st !! p = Some x.
Proof. unfold getPath. destruct (paths st !! p); naive_solver. Qed.

Lemma getScope_Ok st s x : getScope st s = Ok x ↔ scopes st !! s = Some x.
Proof. unfold getScope. destruct (scopes st !! s); naive_solver. Qed.

(** Splits a hypothesis [m ≫= f = Ok b] into its two steps, and turns the
    reads of the store into lookups. *)
Ltac inv_ok H :=
  repeat match type of H with
  | _ ≫= _ = Ok _ =>
      let a := fresh "a" in
      let Ha := fresh "Ha" in
      apply bind_Ok in H as (a & Ha & H);
      try (apply getNode_Ok in Ha);
      try (apply getPath_Ok in Ha);
      try (apply getScope_Ok in Ha)
  end.

Lemma filterM_Ok {A : Type} (f : A → result bool) (l r : list A) :
  filterM f l = Ok r →
  (∀ x, x ∈ l → ∃ b, f x = Ok b) ∧ (∀ x, x ∈ r ↔ x ∈ l ∧ f x = Ok true).
Proof.
  revert r. induction l as [|y l IH]; intros r H; simpl in H.
  - injection H as <-. split; intros x; [|split]; set_solver.
  - inv_ok H. injection H as <-.
    destruct (IH _ Ha0) as [IH1 IH2]. split.
    + intros x [->|Hx]%elem_of_cons; eauto.
    + intros x. destruct a.
      * rewrite !elem_of_cons, IH2. naive_solver.
      * rewrite elem_of_cons, IH2. split; [naive_solver|].
        intros [[->|Hx] Hf]; [congruence|done].
Qed.

Lemma filterM_nil_iff {A : Type} (f : A → result bool) (l r : list A) :
  filterM f l = Ok r → (r = [] ↔ ∀ x, x ∈ l → f x = Ok false).
Proof.
  intros H. destruct (filterM_Ok _ _ _ H) as [Hall Hin]. split.
  - intros -> x Hx. destruct (Hall x Hx) as [[] Hb]; [|done].
    exfalso. eapply not_elem_of_nil, Hin; eauto.
  - intros Hf. destruct r as [|x r]; [done|].
    destruct (proj1 (Hin x)) as [Hx Ht]; [left|].
    rewrite (Hf x Hx) in Ht. discriminate.
Qed.

(** ** The syntactic role of an identifier *)

Lemma parentNode_eval st path p parent :
  hasParentNode st path p parent → getPath st path = Ok p ∧ parentNode st p = Ok parent.
Proof.
  intros (Hp & pp & ppr & Hpp & Hppr & Hn). split; [by apply getPath_Ok|].
  unfold parentNode. rewrite Hpp.
  apply getPath_Ok in Hppr as ->. simpl. by apply getNode_Ok.
Qed.

(** [check] against the enumeration of the derived types. *)
Lemma check_true_iff T n : check T n = true ↔ kindOf n T.
Proof.
  unfold check, kindOf. rewrite orb_true_iff, !bool_decide_eq_true.
  destruct (Node.type n); simpl;
    rewrite ?elem_of_nil, ?list_elem_of_singleton; naive_solver.
Qed.

Lemma check_exact T n :
  (∀ t, T ∉ bases t) → check T n = bool_decide (Node.type n = T).
Proof.
  intros H. unfold check.
  rewrite (bool_decide_eq_false_2 (T ∈ bases (Node.type n))) by apply H.
  apply orb_false_r.
Qed.

Lemma check_derived T U n :
  (∀ t, T ∈ bases t ↔ t = U) →
  check T n = bool_decide (Node.type n = T ∨ Node.type n = U).
Proof.
  intros H. unfold check. rewrite bool_decide_or. f_equal.
  apply bool_decide_ext, H.
Qed.

Ltac no_bases :=
  intros []; simpl; rewrite ?elem_of_nil, ?list_elem_of_singleton; naive_solver.

Lemma check_MemberExpression n :
  check MemberExpression n =
  bool_decide (Node.type n = MemberExpression ∨ Node.type n = JSXMemberExpression).
Proof. apply check_derived. no_bases. Qed.

Lemma check_TypeAlias n :
  check TypeAlias n =
  bool_decide (Node.type n = TypeAlias ∨ Node.type n = DeclareTypeAlias).
Proof. apply check_derived. no_bases. Qed.

Lemma check_Property n : check Property n = bool_decide (Node.type n = Property).
Proof. apply check_exact. no_bases. Qed.

Lemma check_MethodDefinition n :
  check MethodDefinition n = bool_decide (Node.type n = MethodDefinition).
Proof. apply check_exact. no_bases. Qed.

Lemma check_ObjectTypeProperty n :
  check ObjectTypeProperty n = bool_decide (Node.type n = ObjectTypeProperty).
Proof. apply check_exact. no_bases. Qed.

Lemma check_VariableDeclarator n :
  check VariableDeclarator n = bool_decide (Node.type n = VariableDeclarator).
Proof. apply check_exact. no_bases. Qed.

Lemma check_FunctionDeclaration n :
  check FunctionDeclaration n = bool_decide (Node.type n = FunctionDeclaration).
Proof. apply check_exact. no_bases. Qed.

Lemma check_ClassDeclaration n :
  check ClassDeclaration n = bool_decide (Node.type n = ClassDeclaration).
Proof. apply check_exact. no_bases. Qed.

Lemma check_CallExpression n :
  check CallExpression n = bool_decide (Node.type n = CallExpression).
Proof. apply check_exact. no_bases. Qed.

Lemma check_VariableDeclaration n :
  check VariableDeclaration n = bool_decide (Node.type n = VariableDeclaration).
Proof. apply check_exact. no_bases. Qed.

Ltac decide_positions :=
  rewrite ?check_MemberExpression, ?check_TypeAlias, ?check_Property,
    ?check_MethodDefinition, ?check_ObjectTypeProperty,
    ?check_VariableDeclarator, ?check_FunctionDeclaration,
    ?check_ClassDeclaration;
  unfold same;
  repeat (case_bool_decide; simpl); try done;
  repeat match goal with |- context [Node.computed ?n] =>
    let E := fresh "E" in destruct (Node.computed n) eqn:E; simpl end;
  try done.

Lemma isVariable_false_iff st path p parent :
  hasParentNode st path p parent →
  isVariable st path = Ok false ↔ nameOnly parent (Path.node p).
Proof.
  intros [Hp Hpar]%parentNode_eval. unfold isVariable, nameOnly.
  rewrite Hp; simpl. rewrite Hpar; simpl.
  decide_positions; naive_solver.
Qed.

Lemma isVariable_true_iff st path p parent :
  hasParentNode st path p parent →
  isVariable st path = Ok true ↔ ¬ nameOnly parent (Path.node p).
Proof.
  intros [Hp Hpar]%parentNode_eval. unfold isVariable, nameOnly.
  rewrite Hp; simpl. rewrite Hpar; simpl.
  decide_positions; naive_solver.
Qed.

Lemma isDeclaratorID_true_iff st path p parent :
  hasParentNode st path p parent →
  isDeclaratorID st path = Ok true ↔ bindingPosition parent (Path.node p).
Proof.
  intros [Hp Hpar]%parentNode_eval. unfold isDeclaratorID, bindingPosition.
  rewrite Hp; simpl. rewrite Hpar; simpl.
  decide_positions; naive_solver.
Qed.

(** C2. [isVariable] returns [false] exactly in the four name-only positions
    (non-computed member property, non-computed property key, non-computed
    method key, object-type property key) and [true] in every other position
    under a parent, the property of a computed member expression included;
    its result is fixed by the path and by the parent node alone, whatever
    the scopes and the rest of the store are.  A member expression is what
    [MemberExpression.check] accepts: the member expression of a JSX element
    name, [<obj.n/>], is one, and its property is a name-only position. *)
Theorem isVariable_classifies st path p parent :
  hasParentNode st path p parent →
  (isVariable st path = Ok false ↔ nameOnly parent (Path.node p)) ∧
  (isVariable st path = Ok true ↔ ¬ nameOnly parent (Path.node p)) ∧
  (Node.type parent = MemberExpression → Node.computed parent = true →
   isVariable st path = Ok true) ∧
  (∀ st', hasParentNode st' path p parent → isVariable st' path = isVariable st path).
Proof.
  intros H. split; [by apply isVariable_false_iff|].
  split; [by apply isVariable_true_iff|]. split.
  - intros Hty Hc. apply (isVariable_true_iff _ _ _ _ H).
    unfold nameOnly. rewrite Hty, Hc. naive_solver.
  - intros st' H'.
    destruct (parentNode_eval _ _ _ _ H) as [Hp Hpar].
    destruct (parentNode_eval _ _ _ _ H') as [Hp' Hpar'].
    unfold isVariable. rewrite Hp, Hp'; simpl. by rewrite Hpar, Hpar'.
Qed.

Lemma isVariable_classifies_witness :
  isVariable Sample.shadow 17 = Ok false ∧
  isVariable Sample.jsx 10 = Ok false ∧
  isVariable Sample.shadow 22 = Ok true.
Proof.
  split; [|split].
  - assert (hasParentNode Sample.shadow 17 (Path.mk 17 (Some 15) (Some 0) [])
              (Sample.member 17 false)) as Hpar.
    { split; [reflexivity|].
      exists 15, (Path.mk 15 (Some 14) (Some 0) [16; 17]).
      split; [reflexivity|]. split; reflexivity. }
    apply (proj2 (proj1 (isVariable_classifies _ _ _ _ Hpar))).
    left. split; [left; reflexivity|]. split; reflexivity.
  - assert (hasParentNode Sample.jsx 10 (Path.mk 10 (Some 8) (Some 0) [])
              (Sample.jsxMember 10)) as Hpar.
    { split; [reflexivity|].
      exists 8, (Path.mk 8 (Some 7) (Some 0) [9; 10]).
      split; [reflexivity|]. split; reflexivity. }
    apply (proj2 (proj1 (isVariable_classifies _ _ _ _ Hpar))).
    left. split; [right; reflexivity|]. split; reflexivity.
  - assert (hasParentNode Sample.shadow 22 (Path.mk 22 (Some 20) (Some 0) [])
              (Sample.member 22 true)) as Hpar.
    { split; [reflexivity|].
      exists 20, (Path.mk 20 (Some 19) (Some 0) [21; 22]).
      split; [reflexivity|]. split; reflexivity. }
    apply (proj1 (proj2 (proj2 (isVariable_classifies _ _ _ _ Hpar))));
      reflexivity.
Defined.

(** ** The upward walk through the scopes *)

Lemma declaring_functional st name start s1 s2 :
  declaring st name start s1 → declaring st name start s2 → s1 = s2.
Proof.
  induction 1 as [s sc Hs Hd|s sc r Hs Hd _ IH]; inversion 1; simplify_eq; auto; congruence.
Qed.

Lemma declaringScopeOf_sound fuel st name start s :
  declaringScopeOf fuel st name start = Ok s → declaring st name start s.
Proof.
  revert start. induction fuel as [|fuel IH]; intros start H; [done|].
  simpl in H. destruct start as [s0|]; [|done].
  inv_ok H. destruct (declares a name) eqn:Hd.
  - injection H as <-. by eapply declaring_here.
  - eapply declaring_up; eauto.
Qed.

Lemma declaring_steps st name start s :
  declaring st name start s → ∃ n, declaringIn st name start s n.
Proof.
  induction 1 as [s sc Hs Hd|s sc r Hs Hd _ [n IH]].
  - exists 0. by eapply declaringIn_here.
  - exists (S n). by eapply declaringIn_up.
Qed.

Lemma declaringScopeOf_complete st name start s n :
  declaringIn st name start s n →
  ∀ fuel, n < fuel → declaringScopeOf fuel st name start = Ok s.
Proof.
  induction 1 as [s sc Hs Hd|s sc r n Hs Hd _ IH]; intros [|fuel] Hf; try lia; simpl.
  - apply getScope_Ok in Hs as ->. simpl. by rewrite Hd.
  - apply getScope_Ok in Hs as ->. simpl. rewrite Hd. apply IH. lia.
Qed.

Lemma declaring_terminates st name start s :
  declaring st name start s →
  ∃ n, ∀ fuel, n < fuel → declaringScopeOf fuel st name start = Ok s.
Proof.
  intros [n Hn]%declaring_steps. exists n. by apply declaringScopeOf_complete.
Qed.

Lemma chain_undeclared_throws st name start l :
  chain st start l →
  (∀ s, s ∈ l → ¬ declaresAt st name s) →
  ∀ fuel, length l < fuel → declaringScopeOf fuel st name start = Throw TypeError.
Proof.
  induction 1 as [|s sc l Hs _ IH]; intros Hno [|fuel] Hf; simpl in *; try lia; [done|].
  rewrite (proj2 (getScope_Ok _ _ _) Hs); simpl.
  destruct (declares sc name) eqn:Hd.
  - exfalso. apply (Hno s); [left|]. by exists sc.
  - apply IH; [|lia]. intros s' Hs'. apply Hno. by right.
Qed.

(** The walk has one way to fail: the access to [declares] of [null]. *)
Lemma declaringScopeOf_never_ScopeResolutionError fuel st name start :
  declaringScopeOf fuel st name start ≠ Throw ScopeResolutionError.
Proof.
  revert start. induction fuel as [|fuel IH]; intros start; [done|]. simpl.
  destruct start as [s|]; [|done].
  destruct (getScope st s) as [sc| | |] eqn:Hs; simpl; try done.
  - destruct (declares sc name); [done|apply IH].
  - unfold getScope in Hs. by destruct (scopes st !! s).
Qed.

Lemma chain_undeclared_no_scope st name start l :
  chain st start l →
  (∀ s, s ∈ l → ¬ declaresAt st name s) →
  ∀ s, ¬ declaring st name start s.
Proof.
  induction 1 as [|s sc l Hs _ IH]; intros Hno r Hr; inversion Hr; simplify_eq.
  - apply (Hno r); [left|]. by eexists.
  - eapply IH; [|done]. intros s' Hs'. apply Hno. by right.
Qed.

(** C9. When some scope of the finite chain from the start to the root
    declares the name, the walk terminates -- every fuel above the number of
    scopes it passes is enough -- and returns the nearest declaring scope,
    the start included: no scope before it in the chain declares the name. *)
Theorem walk_returns_nearest_declaring_scope st name start l :
  chain st start l →
  (∃ s, s ∈ l ∧ declaresAt st name s) →
  ∃ l1 s l2,
    l = l1 ++ s :: l2 ∧
    declaresAt st name s ∧
    (∀ s', s' ∈ l1 → ¬ declaresAt st name s') ∧
    ∀ fuel, length l1 < fuel → declaringScopeOf fuel st name start = Ok s.
Proof.
  induction 1 as [|s sc l Hs Hl IH]; intros (s0 & Hin & Hdecl).
  - by apply not_elem_of_nil in Hin.
  - destruct (declares sc name) eqn:Hd.
    + exists [], s, l. split; [done|]. split; [by exists sc|].
      split; [intros s' Hs'; by apply not_elem_of_nil in Hs'|].
      intros [|fuel] Hf; [simpl in Hf; lia|]. simpl.
      rewrite (proj2 (getScope_Ok _ _ _) Hs); simpl. by rewrite Hd.
    + assert (s0 ∈ l) as Hin'.
      { apply elem_of_cons in Hin as [->|]; [|done].
        destruct Hdecl as (sc' & Hs' & Hd'). congruence. }
      destruct IH as (l1 & r & l2 & -> & Hr & Hbefore & Hwalk); [by exists s0|].
      exists (s :: l1), r, l2. split; [done|]. split; [done|]. split.
      * intros s' [->|Hs']%elem_of_cons; [|by apply Hbefore].
        intros (sc' & Hs' & Hd'). congruence.
      * intros [|fuel] Hf; simpl in Hf; [lia|]. simpl.
        rewrite (proj2 (getScope_Ok _ _ _) Hs); simpl. rewrite Hd.
        apply Hwalk. lia.
Qed.

Lemma walk_returns_nearest_declaring_scope_witness :
  ∃ l1 s l2,
    [1; 0] = l1 ++ s :: l2 ∧
    declaresAt Sample.catchVar (Some "x") s ∧
    (∀ s', s' ∈ l1 → ¬ declaresAt Sample.catchVar (Some "x") s') ∧
    ∀ fuel, length l1 < fuel →
      declaringScopeOf fuel Sample.catchVar (Some "x") (Some 1) = Ok s.
Proof.
  apply (walk_returns_nearest_declaring_scope Sample.catchVar (Some "x") (Some 1) [1; 0]).
  - eapply chain_step; [reflexivity|]. eapply chain_step; [reflexivity|]. apply chain_root.
  - exists 0. split; [by right; left|]. eexists. split; reflexivity.
Defined.

(** In [try {} catch (e) { var x = 1; } g(x);] no scope declares [g]: the
    walk for [g] from the scope of the catch clause passes the program's
    scope and fails with the [TypeError] of reading [declares] of [null],
    not with a [ScopeResolutionError]. *)
Lemma walk_raises_ScopeResolutionError_counterexample :
  chain Sample.catchVar (Some 1) [1; 0] ∧
  (∀ s, s ∈ [1; 0] → ¬ declaresAt Sample.catchVar (Some "g") s) ∧
  (∀ fuel, 2 < fuel →
     declaringScopeOf fuel Sample.catchVar (Some "g") (Some 1) = Throw TypeError) ∧
  ¬ raisesScopeResolutionError Sample.catchVar (Some "g") (Some 1).
Proof.
  assert (chain Sample.catchVar (Some 1) [1; 0]) as Hc.
  { eapply chain_step; [reflexivity|]. eapply chain_step; [reflexivity|].
    apply chain_root. }
  assert (∀ s, s ∈ [1; 0] → ¬ declaresAt Sample.catchVar (Some "g") s) as Hno.
  { intros s Hs (sc & Hsc & Hd). apply elem_of_cons in Hs as [->|Hs].
    - vm_compute in Hsc. injection Hsc as <-. vm_compute in Hd. discriminate Hd.
    - apply list_elem_of_singleton in Hs as ->.
      vm_compute in Hsc. injection Hsc as <-. vm_compute in Hd. discriminate Hd. }
  split; [exact Hc|]. split; [exact Hno|]. split.
  - intros fuel Hf. by apply (chain_undeclared_throws _ _ _ _ Hc Hno).
  - intros [n Hn]. specialize (Hn (S (n `max` 2))).
    rewrite (chain_undeclared_throws _ _ _ _ Hc Hno) in Hn by (simpl; lia).
    discriminate Hn; lia.
Qed.

(** C6, amended. When no scope of the finite chain from the start to the
    root declares the name, the walk returns no scope for any fuel; once it
    has passed the root it reads [declares] of [null] and throws the
    [TypeError] of that access -- never a [ScopeResolutionError], a class
    that the code does not have -- and the exception propagates out of
    [isDeclaredBy] and out of its predicate to the caller. *)
Theorem walk_throws_when_undeclared st name start l :
  chain st start l →
  (∀ s, s ∈ l → ¬ declaresAt st name s) →
  (∀ fuel s, declaringScopeOf fuel st name start ≠ Ok s) ∧
  (∀ fuel, length l < fuel → declaringScopeOf fuel st name start = Throw TypeError) ∧
  (∀ fuel, declaringScopeOf fuel st name start ≠ Throw ScopeResolutionError) ∧
  (∀ fuel D dp, length l < fuel → idName st D = Ok name →
     paths st !! D = Some dp → Path.scope dp = start →
     isDeclaredBy fuel st D = Throw TypeError) ∧
  (∀ fuel sD P ip, length l < fuel → isVariable st P = Ok true →
     paths st !! P = Some ip → Path.scope ip = start →
     isDeclaredBy_closure fuel name sD st P = Throw TypeError).
Proof.
  intros Hc Hno. split; [|split; [|split; [|split]]].
  - intros fuel s Hs%declaringScopeOf_sound.
    by eapply chain_undeclared_no_scope.
  - by eapply chain_undeclared_throws.
  - intros fuel. apply declaringScopeOf_never_ScopeResolutionError.
  - intros fuel D dp Hf Hname Hdp <-. unfold isDeclaredBy.
    rewrite Hname; simpl. rewrite (proj2 (getPath_Ok _ _ _) Hdp); simpl.
    by rewrite (chain_undeclared_throws _ _ _ _ Hc Hno fuel Hf).
  - intros fuel sD P ip Hf Hv Hip <-. unfold isDeclaredBy_closure.
    rewrite Hv; simpl. rewrite (proj2 (getPath_Ok _ _ _) Hip); simpl.
    by rewrite (chain_undeclared_throws _ _ _ _ Hc Hno fuel Hf).
Qed.

Lemma not_declaresAt_eval st name s sc :
  scopes st !! s = Some sc → declares sc name = false → ¬ declaresAt st name s.
Proof. intros Hs Hd (sc' & Hs' & Hd'). congruence. Qed.

Lemma walk_throws_when_undeclared_witness :
  declaringScopeOf 3 Sample.catchVar (Some "g") (Some 1) = Throw TypeError.
Proof.
  apply (walk_throws_when_undeclared Sample.catchVar (Some "g") (Some 1) [1; 0]).
  - eapply chain_step; [reflexivity|]. eapply chain_step; [reflexivity|]. apply chain_root.
  - intros s Hs. apply elem_of_cons in Hs as [->|Hs].
    + eapply not_declaresAt_eval; reflexivity.
    + apply elem_of_cons in Hs as [->|Hs]; [|by apply not_elem_of_nil in Hs].
      eapply not_declaresAt_eval; reflexivity.
  - simpl. lia.
Defined.

(** ** The matcher *)

Lemma declaring_declaresAt st name start s :
  declaring st name start s → declaresAt st name s.
Proof. induction 1; [by eexists|done]. Qed.

Lemma isDeclaredBy_Ok fuel st D declaredBy :
  isDeclaredBy fuel st D = Ok declaredBy →
  ∃ name dp sD,
    idName st D = Ok name ∧ paths st !! D = Some dp ∧
    declaringScopeOf fuel st name (Path.scope dp) = Ok sD ∧
    declaredBy = isDeclaredBy_closure fuel name sD.
Proof.
  unfold isDeclaredBy. intros H. inv_ok H. injection H as <-. naive_solver.
Qed.

Lemma isDeclaredBy_eval fuel st D name dp sD :
  idName st D = Ok name → paths st !! D = Some dp →
  declaringScopeOf fuel st name (Path.scope dp) = Ok sD →
  isDeclaredBy fuel st D = Ok (isDeclaredBy_closure fuel name sD).
Proof.
  intros Hn Hdp Hw. unfold isDeclaredBy. rewrite Hn; simpl.
  rewrite (proj2 (getPath_Ok _ _ _) Hdp); simpl. by rewrite Hw.
Qed.

(** The closure answers [true] exactly for a variable whose walk ends in a
    scope with the same [path] as the declarator's. *)
Lemma closure_true_iff fuel name sD st P :
  isDeclaredBy_closure fuel name sD st P = Ok true ↔
  isVariable st P = Ok true ∧
  ∃ ip sP scP scD,
    paths st !! P = Some ip ∧
    declaringScopeOf fuel st name (Path.scope ip) = Ok sP ∧
    scopes st !! sP = Some scP ∧ scopes st !! sD = Some scD ∧
    Scope.path scP = Scope.path scD.
Proof.
  unfold isDeclaredBy_closure. split.
  - intros H. inv_ok H. destruct a; simpl in H; [|done].
    inv_ok H. case_bool_decide; [|done]. split; [done|]. naive_solver.
  - intros (Hv & ip & sP & scP & scD & Hip & Hw & HsP & HsD & Heq).
    rewrite Hv; simpl. rewrite (proj2 (getPath_Ok _ _ _) Hip); simpl.
    rewrite Hw; simpl. rewrite (proj2 (getScope_Ok _ _ _) HsP); simpl.
    rewrite (proj2 (getScope_Ok _ _ _) HsD); simpl.
    by rewrite bool_decide_eq_true_2.
Qed.

Lemma closure_false_when_shadowed fuel name sD st P ip sP scD :
  scopePathsInjective st →
  isVariable st P = Ok true → paths st !! P = Some ip →
  declaringScopeOf fuel st name (Path.scope ip) = Ok sP →
  scopes st !! sD = Some scD → sP ≠ sD →
  isDeclaredBy_closure fuel name sD st P = Ok false.
Proof.
  intros Hinj Hv Hip Hw HsD Hne. unfold isDeclaredBy_closure.
  rewrite Hv; simpl. rewrite (proj2 (getPath_Ok _ _ _) Hip); simpl.
  rewrite Hw; simpl.
  destruct (declaring_declaresAt _ _ _ _ (declaringScopeOf_sound _ _ _ _ _ Hw))
    as (scP & HsP & _).
  rewrite (proj2 (getScope_Ok _ _ _) HsP); simpl.
  rewrite (proj2 (getScope_Ok _ _ _) HsD); simpl.
  rewrite bool_decide_eq_false_2; [done|].
  intros Heq. apply Hne. by eapply Hinj.
Qed.

(** A walk that returns has had more fuel than the steps it makes. *)
Lemma declaringIn_needs_fuel st name start s n fuel s' :
  declaringIn st name start s n →
  declaringScopeOf fuel st name start = Ok s' → n < fuel.
Proof.
  intros Hn. revert fuel.
  induction Hn as [s sc Hs Hd|s sc r n Hs Hd _ IH]; intros [|fuel] Hw;
    simpl in Hw; try done; [lia|].
  rewrite (proj2 (getScope_Ok _ _ _) Hs) in Hw; simpl in Hw.
  rewrite Hd in Hw. apply IH in Hw. lia.
Qed.

(** C1. For a declarator [D] named [name] whose declaring scope, found by
    the upward walk from [D]'s scope, is [sD]: the predicate made by
    [isDeclaredBy] for [D] returns [true] on a path [P] iff [P] is in a
    variable position and the upward walk from [P]'s scope ends in the very
    scope [sD]; the answer [true] is the same for every larger fuel; and a
    path whose declaring scope is another scope (shadowing) is never
    matched -- a variable there is answered [false]. *)
Theorem isDeclaredBy_iff_same_declaring_scope st D dp name sD :
  scopePathsInjective st →
  idName st D = Ok name → paths st !! D = Some dp →
  declaring st name (Path.scope dp) sD →
  ∀ P,
    ((∃ fuel declaredBy,
        isDeclaredBy fuel st D = Ok declaredBy ∧ declaredBy st P = Ok true) ↔
     (isVariable st P = Ok true ∧
      ∃ ip, paths st !! P = Some ip ∧ declaring st name (Path.scope ip) sD)) ∧
    (∀ fuel declaredBy,
        isDeclaredBy fuel st D = Ok declaredBy → declaredBy st P = Ok true →
        ∀ fuel', fuel ≤ fuel' →
          ∃ declaredBy', isDeclaredBy fuel' st D = Ok declaredBy' ∧
                         declaredBy' st P = Ok true) ∧
    (∀ ip sP, paths st !! P = Some ip → declaring st name (Path.scope ip) sP →
        sP ≠ sD →
        (∀ fuel declaredBy,
            isDeclaredBy fuel st D = Ok declaredBy → declaredBy st P ≠ Ok true) ∧
        (isVariable st P = Ok true →
         ∃ n, ∀ fuel, n < fuel →
           ∃ declaredBy, isDeclaredBy fuel st D = Ok declaredBy ∧
                         declaredBy st P = Ok false)).
Proof.
  intros Hinj Hname Hdp HsD P.
  assert (∀ fuel declaredBy,
    isDeclaredBy fuel st D = Ok declaredBy → declaredBy st P = Ok true →
    declaredBy = isDeclaredBy_closure fuel name sD ∧
    declaringScopeOf fuel st name (Path.scope dp) = Ok sD ∧
    isVariable st P = Ok true ∧
    ∃ ip, paths st !! P = Some ip ∧
          declaringScopeOf fuel st name (Path.scope ip) = Ok sD) as Hsound.
  { intros fuel declaredBy HD HP.
    apply isDeclaredBy_Ok in HD as (name' & dp' & sD' & Hn' & Hdp' & Hw & ->).
    simplify_eq. assert (name' = name) as -> by congruence.
    pose proof (declaringScopeOf_sound _ _ _ _ _ Hw) as Hw'.
    pose proof (declaring_functional _ _ _ _ _ Hw' HsD) as ->.
    apply closure_true_iff in HP
      as (Hv & ip & sP & scP & scD & Hip & HwP & HsP & HscD & Heq).
    pose proof (Hinj _ _ _ _ HsP HscD Heq) as ->. eauto 10. }
  assert (∀ ip, isVariable st P = Ok true → paths st !! P = Some ip →
    declaring st name (Path.scope ip) sD →
    ∃ n, ∀ fuel, n < fuel →
      isDeclaredBy fuel st D = Ok (isDeclaredBy_closure fuel name sD) ∧
      isDeclaredBy_closure fuel name sD st P = Ok true) as Hcomplete.
  { intros ip Hv Hip HsP.
    destruct (declaring_terminates _ _ _ _ HsD) as [n1 Hn1].
    destruct (declaring_terminates _ _ _ _ HsP) as [n2 Hn2].
    destruct (declaring_declaresAt _ _ _ _ HsD) as (scD & HscD & _).
    exists (n1 `max` n2). intros fuel Hf. split.
    - apply (isDeclaredBy_eval _ _ _ _ dp); [done..|]. apply Hn1. lia.
    - apply closure_true_iff. split; [done|].
      exists ip, sD, scD, scD. split_and!; try done. apply Hn2. lia. }
  split; [split|split].
  - intros (fuel & declaredBy & HD & HP).
    destruct (Hsound _ _ HD HP) as (_ & _ & Hv & ip & Hip & Hw).
    split; [done|]. exists ip. split; [done|]. by eapply declaringScopeOf_sound.
  - intros (Hv & ip & Hip & HsP).
    destruct (Hcomplete ip Hv Hip HsP) as [n Hn].
    destruct (Hn (S n)) as [H1 H2]; [lia|]. eauto.
  - intros fuel declaredBy HD HP fuel' Hle.
    destruct (Hsound _ _ HD HP) as (_ & HwD & Hv & ip & Hip & HwP).
    destruct (declaring_declaresAt _ _ _ _ HsD) as (scD & HscD & _).
    destruct (declaring_steps _ _ _ _ (declaringScopeOf_sound _ _ _ _ _ HwD)) as [n1 Hn1].
    destruct (declaring_steps _ _ _ _ (declaringScopeOf_sound _ _ _ _ _ HwP)) as [n2 Hn2].
    pose proof (declaringIn_needs_fuel _ _ _ _ _ _ _ Hn1 HwD).
    pose proof (declaringIn_needs_fuel _ _ _ _ _ _ _ Hn2 HwP).
    exists (isDeclaredBy_closure fuel' name sD). split.
    + apply (isDeclaredBy_eval _ _ _ _ dp); [done..|].
      eapply declaringScopeOf_complete; [done|lia].
    + apply closure_true_iff. split; [done|].
      exists ip, sD, scD, scD. split_and!; try done.
      eapply declaringScopeOf_complete; [done|lia].
  - intros ip sP Hip HsP Hne. split.
    + intros fuel declaredBy HD HP.
      destruct (Hsound _ _ HD HP) as (_ & _ & _ & ip' & Hip' & Hw).
      simplify_eq. apply Hne.
      eapply declaring_functional; [done|]. by eapply declaringScopeOf_sound.
    + intros Hv.
      destruct (declaring_terminates _ _ _ _ HsD) as [n1 Hn1].
      destruct (declaring_terminates _ _ _ _ HsP) as [n2 Hn2].
      destruct (declaring_declaresAt _ _ _ _ HsD) as (scD & HscD & _).
      exists (n1 `max` n2). intros fuel Hf.
      exists (isDeclaredBy_closure fuel name sD). split.
      * apply (isDeclaredBy_eval _ _ _ _ dp); [done..|]. apply Hn1. lia.
      * eapply closure_false_when_shadowed; try done. apply Hn2. lia.
Qed.

Lemma scopePathsInjective_check st :
  NoDup ((λ kv, Scope.path kv.2) <$> map_to_list (scopes st)) →
  scopePathsInjective st.
Proof.
  intros Hnd s1 s2 sc1 sc2 H1 H2 Heq.
  apply elem_of_map_to_list, list_elem_of_lookup in H1 as [i Hi].
  apply elem_of_map_to_list, list_elem_of_lookup in H2 as [j Hj].
  assert (i = j) as ->.
  { eapply NoDup_lookup; [exact Hnd| |].
    - rewrite list_lookup_fmap, Hi. reflexivity.
    - rewrite list_lookup_fmap, Hj. simpl. by rewrite Heq. }
  congruence.
Qed.

Lemma isDeclaredBy_iff_same_declaring_scope_witness :
  (∃ fuel declaredBy,
      isDeclaredBy fuel Sample.shadow 2 = Ok declaredBy ∧
      declaredBy Sample.shadow 26 = Ok true) ↔
  (isVariable Sample.shadow 26 = Ok true ∧
   ∃ ip, paths Sample.shadow !! 26 = Some ip ∧
         declaring Sample.shadow (Some "bar") (Path.scope ip) 0).
Proof.
  apply (isDeclaredBy_iff_same_declaring_scope Sample.shadow 2
           (Path.mk 2 (Some 1) (Some 0) [3; 4]) (Some "bar") 0).
  - apply scopePathsInjective_check. apply (bool_decide_unpack _). vm_compute. exact I.
  - reflexivity.
  - reflexivity.
  - eapply declaring_here; reflexivity.
Defined.

(** ** Searching a subtree *)

Lemma concatM_Ok {A B : Type} (f : A → result (list B)) (l : list A) (r : list B) :
  concatM f l = Ok r →
  (∀ x, x ∈ l → ∃ rx, f x = Ok rx) ∧
  (∀ y, y ∈ r ↔ ∃ x rx, x ∈ l ∧ f x = Ok rx ∧ y ∈ rx).
Proof.
  revert r. induction l as [|x l IH]; intros r H; simpl in H.
  - injection H as <-. split; [set_solver|]. intros y. split; [set_solver|].
    intros (x & rx & Hx & _). by apply not_elem_of_nil in Hx.
  - inv_ok H. injection H as <-. destruct (IH _ Ha0) as [IH1 IH2]. split.
    + intros x' [->|Hx']%elem_of_cons; eauto.
    + intros y. rewrite elem_of_app, IH2. split.
      * intros [Hy|(x' & rx & Hx' & Hf & Hy)].
        -- exists x, a. split; [left|done].
        -- exists x', rx. split; [by right|done].
      * intros (x' & rx & [->|Hx']%elem_of_cons & Hf & Hy).
        -- left. congruence.
        -- right. eauto.
Qed.

Lemma descendants_below fuel st root ds :
  descendants fuel st root = Ok ds → ∀ P, P ∈ ds ↔ below st root P.
Proof.
  revert root ds. induction fuel as [|fuel IH]; intros root ds H; [done|].
  simpl in H. inv_ok H. rename a into rp.
  destruct (concatM_Ok _ _ _ H) as [Hall Hin]. intros P. rewrite Hin. split.
  - intros (c & rc & Hc & Hf & HP). inv_ok Hf. injection Hf as <-.
    apply elem_of_cons in HP as [->|HP].
    + by eapply below_child.
    + eapply below_deeper; [done..|]. by eapply IH.
  - intros Hb. inversion Hb as [r rp' c Hr Hc|r rp' c d Hr Hc Hcd]; simplify_eq.
    + destruct (Hall P Hc) as [rc Hf]. exists P, rc. split; [done|]. split; [done|].
      inv_ok Hf. injection Hf as <-. left.
    + destruct (Hall c Hc) as [rc Hf]. exists c, rc. split; [done|]. split; [done|].
      inv_ok Hf. injection Hf as <-. right. by eapply IH.
Qed.

Lemma below_iff_descendant fuel st root ds P :
  descendants fuel st root = Ok ds → below st root P ↔ P ∈ ds.
Proof. intros H. symmetry. by apply (descendants_below fuel). Qed.

Lemma matches_true_iff st T name P :
  matches st T name P = Ok true ↔ nodeNamed st T name P.
Proof.
  unfold matches, nodeNamed. split.
  - intros H. inv_ok H. injection H as H.
    apply andb_true_iff in H as [H1 H2].
    apply check_true_iff in H1. apply bool_decide_eq_true in H2 as [H2 H3].
    exists a, a0. split_and!; try done. by rewrite <- H3.
  - intros (p & n & Hp & Hn & Hty & Hname & Hsome).
    rewrite (proj2 (getPath_Ok _ _ _) Hp); simpl.
    rewrite (proj2 (getNode_Ok _ _ _) Hn); simpl.
    rewrite (proj2 (check_true_iff _ _) Hty), bool_decide_eq_true_2; [done|].
    split; [|done]. by rewrite Hname.
Qed.

Lemma find_Ok fuel st root T name found :
  find fuel st root T name = Ok found →
  ∀ P, P ∈ found ↔ below st root P ∧ nodeNamed st T name P.
Proof.
  unfold find. intros H P. inv_ok H.
  destruct (filterM_Ok _ _ _ H) as [_ Hin].
  by rewrite Hin, (descendants_below _ _ _ _ Ha), matches_true_iff.
Qed.

(** ** More fuel does not change an outcome *)

Lemma bind_settled {A B : Type} (m : result A) (f : A → result B) :
  m ≫= f ≠ OutOfFuel → m ≠ OutOfFuel.
Proof. by destruct m. Qed.

Lemma bind_ext_settled {A B : Type} (m m' : result A) (f f' : A → result B) :
  m ≫= f ≠ OutOfFuel →
  (m ≠ OutOfFuel → m' = m) →
  (∀ a, m = Ok a → f a ≠ OutOfFuel → f' a = f a) →
  m' ≫= f' = m ≫= f.
Proof.
  intros Hs Hm Hf. rewrite (Hm (bind_settled _ _ Hs)).
  destruct m; simpl in *; try done. by apply Hf.
Qed.

Lemma filterM_ext_settled {A : Type} (f f' : A → result bool) (l : list A) :
  filterM f l ≠ OutOfFuel →
  (∀ x, f x ≠ OutOfFuel → f' x = f x) →
  filterM f' l = filterM f l.
Proof.
  intros Hs Hf. induction l as [|x l IH]; [done|]. simpl in *.
  apply bind_ext_settled; [done|by apply Hf|].
  intros b Hb Hs'. apply bind_ext_settled; [done| |done].
  intros _. apply IH. rewrite Hb in Hs. simpl in Hs. by apply bind_settled in Hs.
Qed.

Lemma concatM_ext_settled {A B : Type} (f f' : A → result (list B)) (l : list A) :
  concatM f l ≠ OutOfFuel →
  (∀ x, f x ≠ OutOfFuel → f' x = f x) →
  concatM f' l = concatM f l.
Proof.
  intros Hs Hf. induction l as [|x l IH]; [done|]. simpl in *.
  apply bind_ext_settled; [done|by apply Hf|].
  intros b Hb Hs'. apply bind_ext_settled; [done| |done].
  intros _. apply IH. rewrite Hb in Hs. simpl in Hs. by apply bind_settled in Hs.
Qed.

Lemma forEachM_ext_settled {S A : Type} (f f' : S → A → result S) (s : S) (l : list A) :
  forEachM f s l ≠ OutOfFuel →
  (∀ s x, f s x ≠ OutOfFuel → f' s x = f s x) →
  forEachM f' s l = forEachM f s l.
Proof.
  intros Hs Hf. revert s Hs. induction l as [|x l IH]; intros s Hs; [done|].
  simpl in *. apply bind_ext_settled; [done|by apply Hf|].
  intros s' Hs' Hs''. by apply IH.
Qed.

Lemma declaringScopeOf_mono fuel fuel' st name scope :
  fuel ≤ fuel' →
  declaringScopeOf fuel st name scope ≠ OutOfFuel →
  declaringScopeOf fuel' st name scope = declaringScopeOf fuel st name scope.
Proof.
  revert fuel' scope. induction fuel as [|fuel IH]; intros [|fuel'] scope Hle Hs;
    try done; [lia|].
  simpl in *. destruct scope as [s|]; [|done].
  destruct (getScope st s) as [sc| | |]; simpl in *; try done.
  destruct (declares sc name); [done|]. apply IH; [lia|done].
Qed.

Lemma descendants_mono fuel fuel' st path :
  fuel ≤ fuel' →
  descendants fuel st path ≠ OutOfFuel →
  descendants fuel' st path = descendants fuel st path.
Proof.
  revert fuel' path. induction fuel as [|fuel IH]; intros [|fuel'] path Hle Hs;
    try done; [lia|].
  simpl in *. apply bind_ext_settled; [done..|].
  intros p Hp Hs'. apply concatM_ext_settled; [done|].
  intros c Hc. apply bind_ext_settled; [done| |done].
  intros Hc'. apply IH; [lia|done].
Qed.

Lemma find_mono fuel fuel' st root T name :
  fuel ≤ fuel' →
  find fuel st root T name ≠ OutOfFuel →
  find fuel' st root T name = find fuel st root T name.
Proof.
  intros Hle Hs. unfold find in *.
  apply bind_ext_settled; [done| |done].
  by apply descendants_mono.
Qed.

Lemma isDeclaredBy_closure_mono fuel fuel' name sD st P :
  fuel ≤ fuel' →
  isDeclaredBy_closure fuel name sD st P ≠ OutOfFuel →
  isDeclaredBy_closure fuel' name sD st P = isDeclaredBy_closure fuel name sD st P.
Proof.
  intros Hle Hs. unfold isDeclaredBy_closure in *.
  apply bind_ext_settled; [done..|]. intros v Hv Hs'.
  destruct (negb v); [done|].
  apply bind_ext_settled; [done..|]. intros ip Hip Hs''.
  apply bind_ext_settled; [done| |done].
  by apply declaringScopeOf_mono.
Qed.

(** [isDeclaredBy] returns a closure, which holds the fuel: what does not
    change is every use that is made of the closure. *)
Lemma isDeclaredBy_mono {B : Type} fuel fuel' st D (k : (Store → PathId → result bool) → result B) :
  fuel ≤ fuel' →
  isDeclaredBy fuel st D ≫= k ≠ OutOfFuel →
  (∀ name sD, k (isDeclaredBy_closure fuel name sD) ≠ OutOfFuel →
     k (isDeclaredBy_closure fuel' name sD) = k (isDeclaredBy_closure fuel name sD)) →
  isDeclaredBy fuel' st D ≫= k = isDeclaredBy fuel st D ≫= k.
Proof.
  intros Hle Hs Hk. unfold isDeclaredBy in *.
  destruct (idName st D) as [name| | |]; simpl in *; try done.
  destruct (getPath st D) as [vp| | |]; simpl in *; try done.
  assert (declaringScopeOf fuel st name (Path.scope vp) ≠ OutOfFuel) as Hw.
  { intros Hw. by rewrite Hw in Hs. }
  rewrite (declaringScopeOf_mono _ _ _ _ _ Hle Hw).
  destruct (declaringScopeOf fuel st name (Path.scope vp)) as [sD| | |]; simpl in *;
    try done.
  by apply Hk.
Qed.

Lemma declaredBy_filter_mono fuel fuel' st D (l : list PathId) :
  fuel ≤ fuel' →
  (declaredBy ← isDeclaredBy fuel st D; filterM (declaredBy st) l) ≠ OutOfFuel →
  (declaredBy ← isDeclaredBy fuel' st D; filterM (declaredBy st) l) =
  (declaredBy ← isDeclaredBy fuel st D; filterM (declaredBy st) l).
Proof.
  intros Hle Hs. apply (isDeclaredBy_mono fuel fuel'); [done..|].
  intros name sD Hs'. apply filterM_ext_settled; [done|].
  intros P. by apply isDeclaredBy_closure_mono.
Qed.

Lemma renameTargets_mono fuel fuel' st D :
  fuel ≤ fuel' →
  renameTargets fuel st D ≠ OutOfFuel →
  renameTargets fuel' st D = renameTargets fuel st D.
Proof.
  intros Hle Hs. unfold renameTargets in *.
  apply bind_ext_settled; [done..|]. intros oldName _ Hs1.
  apply bind_ext_settled; [done..|]. intros root _ Hs2.
  apply bind_ext_settled; [done|by apply find_mono|]. intros found _ Hs3.
  by apply declaredBy_filter_mono.
Qed.

Lemma renameDeclarator_mono fuel fuel' newName st D :
  fuel ≤ fuel' →
  renameDeclarator fuel newName st D ≠ OutOfFuel →
  renameDeclarator fuel' newName st D = renameDeclarator fuel newName st D.
Proof.
  intros Hle Hs. unfold renameDeclarator in *.
  apply bind_ext_settled; [done| |done]. by apply renameTargets_mono.
Qed.

Lemma renameTo_mono fuel fuel' newName st this :
  fuel ≤ fuel' →
  renameTo fuel newName st this ≠ OutOfFuel →
  renameTo fuel' newName st this = renameTo fuel newName st this.
Proof.
  intros Hle Hs. unfold renameTo in *.
  apply bind_ext_settled; [done| |done]. intros Hs'.
  apply forEachM_ext_settled; [done|].
  intros s x. by apply renameDeclarator_mono.
Qed.

Lemma references_mono fuel fuel' st D name :
  fuel ≤ fuel' →
  references fuel st D name ≠ OutOfFuel →
  references fuel' st D name = references fuel st D name.
Proof.
  intros Hle Hs. unfold references in *.
  apply bind_ext_settled; [done..|]. intros root _ Hs1.
  apply bind_ext_settled; [done|by apply find_mono|]. intros found _ Hs2.
  apply bind_ext_settled; [done..|]. intros uses _ Hs3.
  by apply declaredBy_filter_mono.
Qed.

Lemma unreferenced_mono fuel fuel' st D :
  fuel ≤ fuel' →
  unreferenced fuel st D ≠ OutOfFuel →
  unreferenced fuel' st D = unreferenced fuel st D.
Proof.
  intros Hle Hs. unfold unreferenced in *.
  apply bind_ext_settled; [done..|]. intros name _ Hs1.
  destruct (negb (truthy name)); [done|].
  apply bind_ext_settled; [done| |done]. by apply references_mono.
Qed.

Lemma removeUnreferenced_mono fuel fuel' st this :
  fuel ≤ fuel' →
  removeUnreferenced fuel st this ≠ OutOfFuel →
  removeUnreferenced fuel' st this = removeUnreferenced fuel st this.
Proof.
  intros Hle Hs. unfold removeUnreferenced in *.
  apply bind_ext_settled; [done| |done]. intros Hs'.
  apply filterM_ext_settled; [done|].
  intros D. by apply unreferenced_mono.
Qed.

(** ** Renaming *)

Lemma elem_of_nodesOf st l i :
  i ∈ nodesOf st l ↔ ∃ P p, P ∈ l ∧ paths st !! P = Some p ∧ Path.node p = i.
Proof.
  unfold nodesOf. rewrite list_elem_of_omap. split.
  - intros (P & HP & Hi). destruct (paths st !! P) as [p|] eqn:Hp; [|done].
    injection Hi as <-. eauto.
  - intros (P & p & HP & Hp & <-). exists P. by rewrite Hp.
Qed.

Lemma set_name_twice s n : Node.set_name s (Node.set_name s n) = Node.set_name s n.
Proof. by destruct n. Qed.

Lemma replaceName_each newName st l st' :
  forEachM (replaceName newName) st l = Ok st' →
  paths st' = paths st ∧ scopes st' = scopes st ∧
  (∀ i, i ∈ nodesOf st l → nodes st' !! i = Node.set_name newName <$> nodes st !! i) ∧
  (∀ i, i ∉ nodesOf st l → nodes st' !! i = nodes st !! i).
Proof.
  revert st. induction l as [|P l IH]; intros st H; simpl in H.
  - injection H as <-. split_and!; try done.
    intros i Hi. by apply not_elem_of_nil in Hi.
  - inv_ok H. unfold replaceName in Ha. inv_ok Ha. injection Ha as <-.
    destruct (IH _ H) as (Hp & Hs & Hin & Hout). cbn [paths scopes nodes] in *.
    change (nodesOf _ l) with (nodesOf st l) in Hin, Hout.
    assert (nodesOf st (P :: l) = Path.node a0 :: nodesOf st l) as ->.
    { unfold nodesOf. cbn [omap list_omap]. by rewrite Ha0. }
    split_and!; try done.
    + intros i Hi. destruct (decide (i ∈ nodesOf st l)) as [Hl|Hl].
      * rewrite (Hin i Hl), lookup_alter. case_decide; [subst i|done].
        destruct (nodes st !! Path.node a0); simpl; [|done].
        by rewrite set_name_twice.
      * apply elem_of_cons in Hi as [->|]; [|done].
        by rewrite (Hout _ Hl), lookup_alter_eq.
    + intros i Hi. apply not_elem_of_cons in Hi as [Hne Hl].
      by rewrite (Hout i Hl), lookup_alter_ne.
Qed.

Lemma renameTargets_Ok fuel st D targets :
  renameTargets fuel st D = Ok targets →
  ∃ oldName root declaredBy,
    idName st D = Ok oldName ∧ scopePath st D = Ok root ∧
    isDeclaredBy fuel st D = Ok declaredBy ∧
    ∀ P, P ∈ targets ↔
         below st root P ∧ nodeNamed st Identifier oldName P ∧
         declaredBy st P = Ok true.
Proof.
  unfold renameTargets. intros H. inv_ok H.
  exists a, a0, a2. split_and!; try done. intros P.
  destruct (filterM_Ok _ _ _ H) as [_ ->].
  rewrite (find_Ok _ _ _ _ _ _ Ha1). naive_solver.
Qed.

(** The identifier that a declarator binds is a variable. *)
Lemma binding_identifier_isVariable st D dp dn I ip :
  paths st !! D = Some dp → nodes st !! Path.node dp = Some dn →
  Node.type dn = VariableDeclarator →
  paths st !! I = Some ip → Path.parent ip = Some D →
  isVariable st I = Ok true.
Proof.
  intros Hdp Hdn Hty Hip Hpar.
  apply (isVariable_true_iff st I ip dn).
  - split; [done|]. by exists D, dp.
  - unfold nameOnly. rewrite Hty. naive_solver.
Qed.

(** C5, amended. When the callback of [renameTo] completes for a declarator, the
    identifiers it rewrites are exactly the identifiers named [oldName] below
    the searched root -- the nodes that [Identifier.check] accepts, JSX
    identifiers included -- on which the predicate of [isDeclaredBy] answers
    [true]; the node of each of them is the old node with [newName] as its
    name; the identifier that the declarator binds is one of them; and
    paths, scopes and every node that no such path points to are as
    before.  This is [renameTo] on the collection of that one declarator,
    and more fuel gives the same store. *)
Theorem renameDeclarator_renames_the_matches_only fuel newName st D st' :
  renameDeclarator fuel newName st D = Ok st' →
  ∃ oldName root declaredBy targets,
    idName st D = Ok oldName ∧ scopePath st D = Ok root ∧
    isDeclaredBy fuel st D = Ok declaredBy ∧
    renameTargets fuel st D = Ok targets ∧
    (∀ P, P ∈ targets ↔
          below st root P ∧ nodeNamed st Identifier oldName P ∧
          declaredBy st P = Ok true) ∧
    (∀ P p, P ∈ targets → paths st !! P = Some p →
       ∃ n, nodes st !! Path.node p = Some n ∧
            nodes st' !! Path.node p = Some (Node.set_name newName n)) ∧
    (∀ dp dn I ip,
       paths st !! D = Some dp → nodes st !! Path.node dp = Some dn →
       Node.type dn = VariableDeclarator →
       paths st !! I = Some ip → Node.id dn = Some (Path.node ip) →
       Path.parent ip = Some D → Path.scope ip = Path.scope dp →
       below st root I → nodeNamed st Identifier oldName I →
       I ∈ targets) ∧
    paths st' = paths st ∧ scopes st' = scopes st ∧
    (∀ i, i ∉ nodesOf st targets → nodes st' !! i = nodes st !! i) ∧
    renameTo fuel newName st [D] = Ok (st', [D]) ∧
    (∀ fuel', fuel ≤ fuel' → renameDeclarator fuel' newName st D = Ok st').
Proof.
  intros Hrun.
  assert (∀ fuel', fuel ≤ fuel' → renameDeclarator fuel' newName st D = Ok st') as Hmono.
  { intros fuel' Hle. rewrite <- Hrun. apply renameDeclarator_mono; [done|].
    by rewrite Hrun. }
  assert (renameTo fuel newName st [D] = Ok (st', [D])) as Hto.
  { unfold renameTo. simpl. by rewrite Hrun. }
  revert Hrun.
  unfold renameDeclarator. intros H. inv_ok H. rename a into targets.
  destruct (renameTargets_Ok _ _ _ _ Ha)
    as (oldName & root & declaredBy & Hname & Hroot & HD & Htargets).
  destruct (replaceName_each _ _ _ _ H) as (Hp & Hs & Hin & Hout).
  exists oldName, root, declaredBy, targets. split_and!; try done.
  - intros P p HP Hp'.
    apply Htargets in HP as HP'. destruct HP' as (_ & (p' & n & Hp'' & Hn & _) & _).
    simplify_eq. exists n. split; [done|].
    rewrite Hin, Hn; [done|]. apply elem_of_nodesOf. eauto.
  - intros dp dn I ip Hdp Hdn Hty Hip Hid Hpar Hsc Hbelow Hnamed.
    apply Htargets. split; [done|]. split; [done|].
    apply isDeclaredBy_Ok in HD as (name' & dp' & sD & Hn' & Hdp' & Hw & ->).
    assert (dp' = dp) as -> by congruence.
    destruct (declaring_declaresAt _ _ _ _ (declaringScopeOf_sound _ _ _ _ _ Hw))
      as (scD & HscD & _).
    apply closure_true_iff. split.
    + by apply (binding_identifier_isVariable st D dp dn I ip).
    + exists ip, sD, scD, scD. by rewrite Hsc.
Qed.

Lemma renameDeclarator_renames_the_matches_only_witness :
  renameDeclarator 10 "Bar" Sample.jsx 2 = Ok jsxRenamed ∧
  renameTargets 10 Sample.jsx 2 = Ok [3; 9] ∧
  (∀ P p, P ∈ [3; 9] → paths Sample.jsx !! P = Some p →
     ∃ n, nodes Sample.jsx !! Path.node p = Some n ∧
          nodes jsxRenamed !! Path.node p = Some (Node.set_name "Bar" n)) ∧
  (∀ i, i ∉ nodesOf Sample.jsx [3; 9] →
        nodes jsxRenamed !! i = nodes Sample.jsx !! i).
Proof.
  assert (renameDeclarator 10 "Bar" Sample.jsx 2 = Ok jsxRenamed) as H
    by (vm_compute; reflexivity).
  assert (renameTargets 10 Sample.jsx 2 = Ok [3; 9]) as Ht
    by (vm_compute; reflexivity).
  split; [exact H|]. split; [exact Ht|].
  destruct (renameDeclarator_renames_the_matches_only 10 "Bar" Sample.jsx 2
              jsxRenamed H)
    as (oldName & root & declaredBy & targets & _ & _ & _ & Ht' & _ & Hin & _ & _ & _ & Hout & _).
  rewrite Ht in Ht'. injection Ht' as <-.
  split; [exact Hin|exact Hout].
Defined.

(** ** Removing nodes *)

Lemma shrinks_refl st : shrinks st st.
Proof. split; try done. intros i n n' c H1 H2. by simplify_eq. Qed.

Lemma shrinks_node_exists st st' i n :
  shrinks st st' → nodes st !! i = Some n → ∃ n', nodes st' !! i = Some n'.
Proof.
  intros Hs Hn. pose proof (shrinks_types _ _ Hs i) as Ht. rewrite Hn in Ht.
  destruct (nodes st' !! i); [eauto|done].
Qed.

Lemma shrinks_node_exists_back st st' i n' :
  shrinks st st' → nodes st' !! i = Some n' → ∃ n, nodes st !! i = Some n.
Proof.
  intros Hs Hn. pose proof (shrinks_types _ _ Hs i) as Ht. rewrite Hn in Ht.
  destruct (nodes st !! i); [eauto|done].
Qed.

Lemma shrinks_trans st1 st2 st3 : shrinks st1 st2 → shrinks st2 st3 → shrinks st1 st3.
Proof.
  intros H12 H23. split.
  - by rewrite (shrinks_scopes _ _ H23), (shrinks_scopes _ _ H12).
  - intros P. by rewrite (shrinks_paths _ _ H23), (shrinks_paths _ _ H12).
  - intros i. by rewrite (shrinks_types _ _ H23), (shrinks_types _ _ H12).
  - intros i n1 n3 c Hn1 Hn3 Hc.
    destruct (shrinks_node_exists _ _ _ _ H12 Hn1) as [n2 Hn2].
    eapply (shrinks_declarations _ _ H12); [done..|].
    by eapply (shrinks_declarations _ _ H23).
Qed.

Lemma keeps_trans c st1 st2 st3 :
  shrinks st1 st2 → keeps c st1 st2 → keeps c st2 st3 → keeps c st1 st3.
Proof.
  intros Hs H12 H23 i n1 n3 Hn1 Hn3 Hc.
  destruct (shrinks_node_exists _ _ _ _ Hs Hn1) as [n2 Hn2]. eauto.
Qed.

Lemma shrinks_path st st' P p :
  shrinks st st' → paths st !! P = Some p →
  ∃ p', paths st' !! P = Some p' ∧ pathLinks p' = pathLinks p.
Proof.
  intros Hs Hp. pose proof (shrinks_paths _ _ Hs P) as Hl. rewrite Hp in Hl.
  destruct (paths st' !! P) as [p'|]; [|done].
  exists p'. split; [done|]. simpl in Hl. congruence.
Qed.

Lemma shrinks_path_back st st' P p' :
  shrinks st st' → paths st' !! P = Some p' →
  ∃ p, paths st !! P = Some p ∧ pathLinks p' = pathLinks p.
Proof.
  intros Hs Hp. pose proof (shrinks_paths _ _ Hs P) as Hl. rewrite Hp in Hl.
  destruct (paths st !! P) as [p|]; [|done].
  exists p. split; [done|]. simpl in Hl. congruence.
Qed.

Lemma shrinks_nodesOf st st' l : shrinks st st' → nodesOf st' l = nodesOf st l.
Proof.
  intros Hs. unfold nodesOf. apply list_omap_ext, Forall2_same_length_lookup_2; [done|].
  intros i P P' HP HP'. simplify_eq.
  pose proof (shrinks_paths _ _ Hs P) as Hl.
  destruct (paths st' !! P) as [p'|], (paths st !! P) as [p|]; try done.
  simpl in *. unfold pathLinks in Hl. congruence.
Qed.

(** A detached node stays detached. *)
Lemma attached_shrinks st st' D :
  shrinks st st' → attached st' D = true → attached st D = true.
Proof.
  intros Hs. unfold attached.
  destruct (paths st' !! D) as [dp'|] eqn:Hdp'; [|done].
  destruct (shrinks_path_back _ _ _ _ Hs Hdp') as (dp & -> & Hl).
  unfold pathLinks in Hl. injection Hl as Hn Hpar Hsc. rewrite <- Hpar, <- Hn.
  destruct (Path.parent dp') as [pp|]; [|done].
  destruct (paths st' !! pp) as [ppr'|] eqn:Hppr'; [|done].
  destruct (shrinks_path_back _ _ _ _ Hs Hppr') as (ppr & -> & Hl).
  unfold pathLinks in Hl. injection Hl as Hn' _ _. rewrite <- Hn'.
  destruct (nodes st' !! Path.node ppr') as [n'|] eqn:Hn''; [|done].
  destruct (shrinks_node_exists_back _ _ _ _ Hs Hn'') as [n Hn0]. rewrite Hn0.
  intros Hc%bool_decide_eq_true. apply bool_decide_eq_true.
  by eapply (shrinks_declarations _ _ Hs).
Qed.

(** A kept declaration stays attached. *)
Lemma attached_keeps st st' D dp :
  shrinks st st' → paths st !! D = Some dp → keeps (Path.node dp) st st' →
  attached st D = true → attached st' D = true.
Proof.
  intros Hs Hdp Hk. unfold attached. rewrite Hdp.
  destruct (shrinks_path _ _ _ _ Hs Hdp) as (dp' & -> & Hl).
  unfold pathLinks in Hl. injection Hl as Hn Hpar Hsc. rewrite Hpar, Hn.
  destruct (Path.parent dp) as [pp|]; [|done].
  destruct (paths st !! pp) as [ppr|] eqn:Hppr; [|done].
  destruct (shrinks_path _ _ _ _ Hs Hppr) as (ppr' & -> & Hl).
  unfold pathLinks in Hl. injection Hl as Hn' _ _. rewrite Hn'.
  destruct (nodes st !! Path.node ppr) as [n|] eqn:Hn''; [|done].
  destruct (shrinks_node_exists _ _ _ _ Hs Hn'') as [n' Hn'''']. rewrite Hn''''.
  intros Hc%bool_decide_eq_true. apply bool_decide_eq_true. by eapply Hk.
Qed.

Lemma detach_type c n : Node.type (detach c n) = Node.type n.
Proof. done. Qed.

Lemma detach_declarations c n :
  Node.declarations (detach c n) = filter (λ x, x ≠ c) (Node.declarations n).
Proof. done. Qed.

Lemma detachPath_links c p : pathLinks (detachPath c p) = pathLinks p.
Proof. done. Qed.

Lemma spliceOut_Ok st q st' :
  spliceOut st q = Ok st' →
  ∃ qp pp ppr n,
    paths st !! q = Some qp ∧ Path.parent qp = Some pp ∧
    paths st !! pp = Some ppr ∧ nodes st !! Path.node ppr = Some n ∧
    st' = mkStore (alter (detach (Path.node qp)) (Path.node ppr) (nodes st))
                  (alter (detachPath q) pp (paths st)) (scopes st).
Proof.
  unfold spliceOut. intros H. inv_ok H.
  destruct (Path.parent a) as [pp|] eqn:Hpp; [|done].
  inv_ok H. injection H as <-. eauto 10.
Qed.

Lemma spliceOut_shrinks st q st' : spliceOut st q = Ok st' → shrinks st st'.
Proof.
  intros (qp & pp & ppr & n & Hqp & Hpp & Hppr & Hn & ->)%spliceOut_Ok.
  split; simpl.
  - done.
  - intros P. rewrite lookup_alter. case_decide; [subst P|done].
    destruct (paths st !! pp); [|done]. simpl. by rewrite detachPath_links.
  - intros i. rewrite lookup_alter. case_decide; [subst i|done].
    by destruct (nodes st !! Path.node ppr).
  - intros i m m' c Hm. rewrite lookup_alter. case_decide; [subst i|].
    + rewrite Hm. simpl. intros [= <-]. rewrite detach_declarations.
      by intros [_ ?]%list_elem_of_filter.
    + rewrite Hm. by intros [= <-].
Qed.

Lemma spliceOut_keeps st q qp st' c :
  spliceOut st q = Ok st' → paths st !! q = Some qp → c ≠ Path.node qp →
  keeps c st st'.
Proof.
  intros (qp' & pp & ppr & n & Hqp & Hpp & Hppr & Hn & ->)%spliceOut_Ok Hqp' Hne.
  assert (qp' = qp) as -> by congruence.
  intros i m m' Hm. simpl. rewrite lookup_alter. case_decide; [subst i|].
  - rewrite Hm. simpl. intros [= <-] Hc. rewrite detach_declarations.
    by apply list_elem_of_filter.
  - rewrite Hm. by intros [= <-].
Qed.

Lemma spliceOut_detaches st q st' :
  spliceOut st q = Ok st' → attached st' q = false.
Proof.
  intros (qp & pp & ppr & n & Hqp & Hpp & Hppr & Hn & ->)%spliceOut_Ok.
  unfold attached. simpl.
  assert (∃ qp', alter (detachPath q) pp (paths st) !! q = Some qp' ∧
                 pathLinks qp' = pathLinks qp) as (qp' & -> & Hl).
  { rewrite lookup_alter. case_decide; [subst q|by eauto].
    rewrite Hqp. simpl. eauto. }
  unfold pathLinks in Hl. injection Hl as -> -> _. rewrite Hpp.
  rewrite lookup_alter_eq, Hppr. simpl.
  rewrite lookup_alter_eq, Hn. cbn [fmap option_fmap option_map].
  rewrite detach_declarations.
  apply bool_decide_eq_false. by intros [? _]%list_elem_of_filter.
Qed.

Lemma prune_Ok st q st' :
  prune st q = Ok st' →
  ∃ qp st1,
    paths st !! q = Some qp ∧ spliceOut st q = Ok st1 ∧
    (st' = st1 ∨
     ∃ pp ppr parent,
       Path.parent qp = Some pp ∧ paths st1 !! pp = Some ppr ∧
       nodes st1 !! Path.node ppr = Some parent ∧
       Node.type parent = VariableDeclaration ∧
       spliceOut st1 pp = Ok st').
Proof.
  unfold prune. intros H. inv_ok H. rename a into qp, a0 into st1.
  exists qp, st1. split; [done|]. split; [done|].
  destruct (Path.parent qp) as [pp|] eqn:Hpp; [|done].
  inv_ok H.
  rewrite check_VariableDeclaration in H.
  destruct (bool_decide (Node.type a0 = VariableDeclaration) && _) eqn:Hc.
  - right. apply andb_true_iff in Hc as [Hty%bool_decide_eq_true _]. eauto 10.
  - left. by injection H.
Qed.

Lemma prune_shrinks st q st' : prune st q = Ok st' → shrinks st st'.
Proof.
  intros (qp & st1 & Hqp & H1 & [->|(pp & ppr & parent & _ & _ & _ & _ & H2)])%prune_Ok.
  - by eapply spliceOut_shrinks.
  - eapply shrinks_trans; by eapply spliceOut_shrinks.
Qed.

Lemma prune_detaches st q st' : prune st q = Ok st' → attached st' q = false.
Proof.
  intros (qp & st1 & Hqp & H1 & [->|(pp & ppr & parent & _ & _ & _ & _ & H2)])%prune_Ok.
  - by eapply spliceOut_detaches.
  - apply spliceOut_detaches in H1. apply spliceOut_shrinks in H2.
    destruct (attached st' q) eqn:Ha; [|done].
    apply (attached_shrinks _ _ _ H2) in Ha. congruence.
Qed.

(** Pruning a path takes away the node of the path and, at most, a
    declaration statement: every other declarator stays. *)
Lemma prune_keeps st q qp st' c :
  prune st q = Ok st' → paths st !! q = Some qp → c ≠ Path.node qp →
  Node.type <$> nodes st !! c = Some VariableDeclarator →
  keeps c st st'.
Proof.
  intros (qp' & st1 & Hqp' & H1 & Hrest)%prune_Ok Hqp Hne Hty.
  assert (qp' = qp) as -> by congruence.
  pose proof (spliceOut_keeps _ _ _ _ _ H1 Hqp Hne) as Hk1.
  destruct Hrest as [->|(pp & ppr & parent & _ & Hppr & Hparent & Hpty & H2)]; [done|].
  pose proof (spliceOut_shrinks _ _ _ H1) as Hs1.
  eapply keeps_trans; [done..|].
  eapply spliceOut_keeps; [done..|].
  intros ->. rewrite <- (shrinks_types _ _ Hs1), Hparent in Hty.
  simpl in Hty. congruence.
Qed.

Lemma forEachM_prune_shrinks st l st' : forEachM prune st l = Ok st' → shrinks st st'.
Proof.
  revert st. induction l as [|q l IH]; intros st H; simpl in H.
  - injection H as <-. apply shrinks_refl.
  - inv_ok H. eapply shrinks_trans; [by eapply prune_shrinks|by apply IH].
Qed.

Lemma forEachM_prune_detaches st l st' :
  forEachM prune st l = Ok st' → ∀ q, q ∈ l → attached st' q = false.
Proof.
  revert st. induction l as [|q0 l IH]; intros st H q Hq; simpl in H.
  - by apply not_elem_of_nil in Hq.
  - inv_ok H. apply elem_of_cons in Hq as [->|Hq]; [|by eapply IH].
    apply prune_detaches in Ha. apply forEachM_prune_shrinks in H.
    destruct (attached st' q0) eqn:Hatt; [|done].
    apply (attached_shrinks _ _ _ H) in Hatt. congruence.
Qed.

Lemma forEachM_prune_keeps st l st' c :
  forEachM prune st l = Ok st' →
  c ∉ nodesOf st l → Node.type <$> nodes st !! c = Some VariableDeclarator →
  keeps c st st'.
Proof.
  revert st. induction l as [|q l IH]; intros st H Hc Hty; simpl in H.
  - injection H as <-. intros i n n' Hn Hn'. by simplify_eq.
  - inv_ok H. rename a into st1.
    destruct (prune_Ok _ _ _ Ha) as (qp & _ & Hqp & _).
    pose proof (prune_shrinks _ _ _ Ha) as Hs.
    assert (nodesOf st (q :: l) = Path.node qp :: nodesOf st l) as Hcons.
    { unfold nodesOf. cbn [omap list_omap]. by rewrite Hqp. }
    rewrite Hcons in Hc. apply not_elem_of_cons in Hc as [Hne Hl].
    eapply keeps_trans; [done| |].
    + by eapply prune_keeps.
    + apply IH; [done| |].
      * by rewrite (shrinks_nodesOf _ _ _ Hs).
      * by rewrite (shrinks_types _ _ Hs).
Qed.

Lemma remove_Ok st this st' returned :
  remove st this = Ok (st', returned) →
  forEachM prune st this = Ok st' ∧ returned = this.
Proof. unfold remove. intros H. inv_ok H. by injection H as <- <-. Qed.

(** ** Unreferenced declarators *)

Lemma references_Ok fuel st D name refs :
  references fuel st D name = Ok refs →
  ∃ root declaredBy,
    scopePath st D = Ok root ∧ isDeclaredBy fuel st D = Ok declaredBy ∧
    ∀ P, P ∈ refs ↔
         below st root P ∧ nodeNamed st Identifier name P ∧
         isDeclaratorID st P = Ok false ∧ declaredBy st P = Ok true.
Proof.
  unfold references. intros H. inv_ok H.
  exists a, a2. split; [done|]. split; [done|]. intros P.
  destruct (filterM_Ok _ _ _ H) as [_ ->].
  destruct (filterM_Ok _ _ _ Ha1) as [_ ->].
  rewrite (find_Ok _ _ _ _ _ _ Ha0).
  assert ((b ← isDeclaratorID st P; Ok (negb b)) = Ok true ↔
          isDeclaratorID st P = Ok false) as ->; [|naive_solver].
  destruct (isDeclaratorID st P) as [[]| | |]; simpl; naive_solver.
Qed.

Lemma truthy_nonempty name : name ≠ "" → truthy (Some name) = true.
Proof.
  intros Hne. simpl. apply negb_true_iff, String.eqb_neq. done.
Qed.

Lemma unreferenced_Ok fuel st D name b :
  unreferenced fuel st D = Ok b → idName st D = Ok name → truthy name = true →
  ∃ refs, references fuel st D name = Ok refs ∧ (b = true ↔ refs = []).
Proof.
  unfold unreferenced. intros H Hn Ht. rewrite Hn in H. simpl in H.
  rewrite Ht in H. simpl in H. inv_ok H. injection H as <-.
  exists a. split; [done|]. rewrite bool_decide_eq_true. split.
  - intros Hl. by apply nil_length_inv.
  - by intros ->.
Qed.

(** [varDeclaratorPath.node.id.name] reads the node of the path only. *)
Lemma idName_same_node st P Q p q :
  paths st !! P = Some p → paths st !! Q = Some q → Path.node p = Path.node q →
  idName st P = idName st Q.
Proof.
  intros Hp Hq Heq. unfold idName.
  rewrite (proj2 (getPath_Ok _ _ _) Hp), (proj2 (getPath_Ok _ _ _) Hq); simpl.
  by rewrite Heq.
Qed.

Lemma unreferenced_without_name fuel st D :
  idName st D = Ok None → unreferenced fuel st D = Ok false.
Proof. unfold unreferenced. by intros ->. Qed.

Lemma removeUnreferenced_Ok fuel st this st' returned :
  removeUnreferenced fuel st this = Ok (st', returned) →
  filterM (unreferenced fuel st) this = Ok returned ∧
  forEachM prune st returned = Ok st'.
Proof.
  unfold removeUnreferenced. intros H. inv_ok H.
  apply remove_Ok in H as [H ->]. done.
Qed.

(** An identifier in a binding position or in a name-only position is not
    counted as a reference. *)
Lemma homonym_not_counted fuel st D declaredBy P p parent :
  isDeclaredBy fuel st D = Ok declaredBy →
  hasParentNode st P p parent →
  bindingPosition parent (Path.node p) ∨ nameOnly parent (Path.node p) →
  ¬ (isDeclaratorID st P = Ok false ∧ declaredBy st P = Ok true).
Proof.
  intros HD Hpar Hpos [Hid Hdb].
  apply isDeclaredBy_Ok in HD as (name & dp & sD & _ & _ & _ & ->).
  apply closure_true_iff in Hdb as [Hv _].
  destruct Hpos as [Hb|Hn].
  - apply (isDeclaratorID_true_iff _ _ _ _ Hpar) in Hb. congruence.
  - apply (isVariable_false_iff _ _ _ _ Hpar) in Hn. congruence.
Qed.

(** C3. When [removeUnreferenced] completes, a declarator of the collection
    whose [id] is an identifier with a (non-empty) name is removed iff no
    identifier path below its scope's path with the same name -- a path
    to a node that [Identifier.check] accepts, a JSX identifier included --
    outside the binding positions of [isDeclaratorID], satisfies
    [isDeclaredBy] for it.
    A removed declarator is no longer among the declarations of its
    statement; one that is not removed, and whose node no removed path points
    to, still is.  When the name occurs only in binding positions (variable,
    function, class, type alias) or name-only positions (member property,
    property key, method key, type-member key), the declarator is removed.
    More fuel gives the same outcome. *)
Theorem removeUnreferenced_removes_iff_unreferenced fuel st this st' removed D dp name :
  removeUnreferenced fuel st this = Ok (st', removed) →
  D ∈ this → paths st !! D = Some dp →
  idName st D = Ok (Some name) → name ≠ "" →
  ∃ root declaredBy (refs : list nat),
    scopePath st D = Ok root ∧ isDeclaredBy fuel st D = Ok declaredBy ∧
    (∀ P, P ∈ refs ↔
          below st root P ∧ nodeNamed st Identifier (Some name) P ∧
          isDeclaratorID st P = Ok false ∧ declaredBy st P = Ok true) ∧
    (D ∈ removed ↔ refs = []) ∧
    (refs = [] → attached st' D = false) ∧
    (refs ≠ [] → Path.node dp ∉ nodesOf st removed →
     Node.type <$> nodes st !! Path.node dp = Some VariableDeclarator →
     attached st D = true → attached st' D = true) ∧
    ((∀ P, below st root P → nodeNamed st Identifier (Some name) P →
        ∃ p parent, hasParentNode st P p parent ∧
          (bindingPosition parent (Path.node p) ∨ nameOnly parent (Path.node p))) →
     refs = []) ∧
    (∀ fuel', fuel ≤ fuel' → removeUnreferenced fuel' st this = Ok (st', removed)).
Proof.
  intros Hrun.
  assert (∀ fuel', fuel ≤ fuel' →
            removeUnreferenced fuel' st this = Ok (st', removed)) as Hmono.
  { intros fuel' Hle. rewrite <- Hrun. apply removeUnreferenced_mono; [done|].
    by rewrite Hrun. }
  revert Hrun.
  intros [Hsel Hprune]%removeUnreferenced_Ok HD Hdp Hname Hne.
  destruct (filterM_Ok _ _ _ Hsel) as [Hall Hin].
  destruct (Hall D HD) as [b Hb].
  destruct (unreferenced_Ok _ _ _ _ _ Hb Hname (truthy_nonempty _ Hne))
    as (refs & Hrefs & Hiff).
  destruct (references_Ok _ _ _ _ _ Hrefs) as (root & declaredBy & Hroot & HdB & Hchar).
  assert (D ∈ removed ↔ refs = []) as Hrem.
  { rewrite Hin, <- Hiff. split; [intros [_ ?]; congruence|intros ->; done]. }
  exists root, declaredBy, refs. split_and!; try done.
  - intros Hnil. eapply forEachM_prune_detaches; [done|]. by apply Hrem.
  - intros _ Hnot Hty Hatt.
    eapply attached_keeps; [by eapply forEachM_prune_shrinks|done| |done].
    by eapply forEachM_prune_keeps.
  - intros Hpos. destruct refs as [|P refs]; [done|]. exfalso.
    destruct (proj1 (Hchar P)) as (Hbelow & Hnamed & Hid & Hdb); [left|].
    destruct (Hpos P Hbelow Hnamed) as (p & parent & Hpar & Hcases).
    by eapply homonym_not_counted.
Qed.

Lemma removeUnreferenced_removes_iff_unreferenced_witness :
  (removeUnreferenced 10 Sample.unused [2; 5] = Ok (unusedPruned, [2]) ∧
   ∃ refs : list nat,
     (2 ∈ [2] ↔ refs = []) ∧ (refs = [] → attached unusedPruned 2 = false)) ∧
  (removeUnreferenced 10 Sample.jsx [2] = Ok (Sample.jsx, []) ∧
   ∃ refs : list nat, (2 ∈ [] ↔ refs = []) ∧ 9 ∈ refs).
Proof.
  split.
  - assert (removeUnreferenced 10 Sample.unused [2; 5] = Ok (unusedPruned, [2])) as H
      by (vm_compute; reflexivity).
    split; [exact H|].
    destruct (removeUnreferenced_removes_iff_unreferenced 10 Sample.unused [2; 5]
                unusedPruned [2] 2 (Path.mk 2 (Some 1) (Some 0) [3; 4]) "x" H)
      as (root & declaredBy & refs & _ & _ & _ & Hiff & Hdet & _).
    + by left.
    + reflexivity.
    + reflexivity.
    + discriminate.
    + exists refs. split; [exact Hiff|exact Hdet].
  - assert (removeUnreferenced 10 Sample.jsx [2] = Ok (Sample.jsx, [])) as H
      by (vm_compute; reflexivity).
    split; [exact H|].
    destruct (removeUnreferenced_removes_iff_unreferenced 10 Sample.jsx [2]
                Sample.jsx [] 2 (Path.mk 2 (Some 1) (Some 0) [3; 4]) "Foo" H)
      as (root & declaredBy & refs & Hroot & HdB & Hchar & Hiff & _).
    + by left.
    + reflexivity.
    + reflexivity.
    + discriminate.
    + exists refs. split; [exact Hiff|].
      vm_compute in Hroot. injection Hroot as <-.
      assert (isDeclaredBy 10 Sample.jsx 2 =
              Ok (isDeclaredBy_closure 10 (Some "Foo") 0)) as HdB' by reflexivity.
      rewrite HdB' in HdB. injection HdB as <-.
      apply Hchar. split.
      * eapply (below_iff_descendant 10); [vm_compute; reflexivity|].
        apply (bool_decide_unpack _). vm_compute. exact I.
      * split; [|split; reflexivity].
        exists (Path.mk 9 (Some 8) (Some 0) []), (Sample.jsxIdent "Foo").
        split; [reflexivity|]. split; [reflexivity|].
        split; [right; left; split; reflexivity|].
        split; [reflexivity|]. by eexists.
Defined.

(** C8. For a declarator whose [id] has no name (a destructuring pattern),
    the callback of [removeUnreferenced] returns [false] without throwing,
    for every fuel -- with none at all, so that no search and no scope walk
    is made for it -- and whatever the scopes are; the declarator is never
    among the removed ones, and it stays among the declarations of its
    statement. *)
Theorem removeUnreferenced_skips_destructuring st D :
  idName st D = Ok None →
  (∀ fuel, unreferenced fuel st D = Ok false) ∧
  ∀ fuel this st' removed,
    removeUnreferenced fuel st this = Ok (st', removed) →
    (D ∉ removed) ∧
    (∀ dp, paths st !! D = Some dp →
           Node.type <$> nodes st !! Path.node dp = Some VariableDeclarator →
           attached st D = true → attached st' D = true).
Proof.
  intros Hname. split; [intros fuel; by apply unreferenced_without_name|].
  intros fuel this st' removed [Hsel Hprune]%removeUnreferenced_Ok.
  destruct (filterM_Ok _ _ _ Hsel) as [_ Hin]. split.
  - rewrite Hin. rewrite (unreferenced_without_name _ _ _ Hname). by intros [_ ?].
  - intros dp Hdp Hty Hatt.
    eapply attached_keeps; [by eapply forEachM_prune_shrinks|done| |done].
    eapply forEachM_prune_keeps; [done| |done].
    intros (q & qp & Hq & Hqp & Hnode)%elem_of_nodesOf.
    apply Hin in Hq as [_ Hq].
    rewrite (unreferenced_without_name fuel st q) in Hq; [done|].
    by rewrite (idName_same_node st q D qp dp).
Qed.

Lemma removeUnreferenced_skips_destructuring_witness :
  unreferenced 0 Sample.destructured 2 = Ok false ∧
  removeUnreferenced 10 Sample.destructured [2; 7] = Ok (destructuredPruned, [7]) ∧
  (2 ∉ [7]) ∧ attached destructuredPruned 2 = true.
Proof.
  destruct (removeUnreferenced_skips_destructuring Sample.destructured 2 eq_refl)
    as [Hcb Hrun].
  assert (removeUnreferenced 10 Sample.destructured [2; 7] = Ok (destructuredPruned, [7]))
    as H by (vm_compute; reflexivity).
  destruct (Hrun 10 [2; 7] destructuredPruned [7] H) as [Hnot Hkeep].
  split; [exact (Hcb 0)|]. split; [exact H|]. split; [exact Hnot|].
  apply (Hkeep (Path.mk 2 (Some 1) (Some 0) [3; 6])); reflexivity.
Defined.

(** ** The value of [removeUnreferenced] *)

(** For [var x = 3, y = 4; f(y);] the returned collection is the removed
    declarator of [x], not the surviving declarator of [y]. *)
Lemma removeUnreferenced_returns_survivors_counterexample :
  removeUnreferenced 10 Sample.unused [2; 5] = Ok (unusedPruned, [2]) ∧
  attached unusedPruned 2 = false ∧ attached unusedPruned 5 = true ∧
  ¬ returnsSurvivors [2; 5] unusedPruned [2].
Proof.
  split; [vm_compute; reflexivity|]. split; [reflexivity|]. split; [reflexivity|].
  intros Hs. destruct (proj1 (Hs 2)) as [_ Hatt]; [by left|]. discriminate.
Qed.

(** C7, amended. When [removeUnreferenced] completes, the collection it
    returns holds exactly the declarators of the input on which the filter
    callback answered [true] -- the unreferenced ones -- in the order of the
    input, and these are the ones it has removed: none of them is among the
    declarations of its statement any more.  A declarator of the input that
    is left out of the returned collection is one on which the callback
    answered [false], and it survives: if it was among the declarations of
    its statement, and the collection has no other path to its node, it
    still is.  So a declarator of the input that was in place survives iff
    it is left out of the returned collection.  More fuel gives the same
    outcome. *)
Theorem removeUnreferenced_returns_the_removed fuel st this st' returned :
  removeUnreferenced fuel st this = Ok (st', returned) →
  filterM (unreferenced fuel st) this = Ok returned ∧
  (∀ D, D ∈ returned ↔ D ∈ this ∧ unreferenced fuel st D = Ok true) ∧
  (∀ D, D ∈ returned → attached st' D = false) ∧
  (∀ D, D ∈ this → D ∉ returned → unreferenced fuel st D = Ok false) ∧
  (∀ D dp, D ∈ this → paths st !! D = Some dp →
     Node.type <$> nodes st !! Path.node dp = Some VariableDeclarator →
     (∀ Q q, Q ∈ this → paths st !! Q = Some q → Path.node q = Path.node dp →
             Q = D) →
     attached st D = true →
     (D ∉ returned → attached st' D = true) ∧
     (attached st' D = true ↔ D ∉ returned)) ∧
  (∀ fuel', fuel ≤ fuel' → removeUnreferenced fuel' st this = Ok (st', returned)).
Proof.
  intros Hrun.
  destruct (removeUnreferenced_Ok _ _ _ _ _ Hrun) as [Hsel Hprune].
  destruct (filterM_Ok _ _ _ Hsel) as [Hall Hin].
  pose proof (forEachM_prune_detaches _ _ _ Hprune) as Hdet.
  assert (∀ D dp, D ∈ this → paths st !! D = Some dp →
     Node.type <$> nodes st !! Path.node dp = Some VariableDeclarator →
     (∀ Q q, Q ∈ this → paths st !! Q = Some q → Path.node q = Path.node dp →
             Q = D) →
     attached st D = true → D ∉ returned → attached st' D = true) as Hkeep.
  { intros D dp HD Hdp Hty Hshare Hatt Hnot.
    eapply attached_keeps; [by eapply forEachM_prune_shrinks|done| |done].
    eapply forEachM_prune_keeps; [done| |done].
    intros (Q & q & HQ & Hq & Hnode)%elem_of_nodesOf.
    apply Hnot. rewrite <- (Hshare Q q); [done| |done..].
    by apply Hin in HQ as [HQ _]. }
  split_and!; try done.
  - intros D HD Hnot. destruct (Hall D HD) as [[] Hb]; [|done].
    exfalso. apply Hnot, Hin. done.
  - intros D dp HD Hdp Hty Hshare Hatt. split; [by eapply Hkeep|]. split.
    + intros Hatt' Hret. apply Hdet in Hret. congruence.
    + by eapply Hkeep.
  - intros fuel' Hle. rewrite <- Hrun. apply removeUnreferenced_mono; [done|].
    by rewrite Hrun.
Qed.

Lemma removeUnreferenced_returns_the_removed_witness :
  removeUnreferenced 10 Sample.unused [2; 5] = Ok (unusedPruned, [2]) ∧
  (∀ D, D ∈ [2] → attached unusedPruned D = false) ∧
  (attached unusedPruned 5 = true ↔ 5 ∉ [2]).
Proof.
  assert (removeUnreferenced 10 Sample.unused [2; 5] = Ok (unusedPruned, [2])) as H
    by (vm_compute; reflexivity).
  destruct (removeUnreferenced_returns_the_removed 10 Sample.unused
              [2; 5] unusedPruned [2] H) as (_ & _ & Hdet & _ & Hsurv & _).
  split; [exact H|]. split; [exact Hdet|].
  apply (Hsurv 5 (Path.mk 5 (Some 1) (Some 0) [6; 7])).
  - right. left.
  - reflexivity.
  - reflexivity.
  - intros Q q HQ Hq Hnode.
    apply elem_of_cons in HQ as [->|HQ].
    + vm_compute in Hq. injection Hq as <-. discriminate Hnode.
    + apply list_elem_of_singleton in HQ. exact HQ.
  - reflexivity.
Defined.

(** ** Completion *)

Lemma concatM_total {A B : Type} (f : A → result (list B)) (l : list A) :
  (∀ x, x ∈ l → ∃ r, f x = Ok r) → ∃ r, concatM f l = Ok r.
Proof.
  induction l as [|x l IH]; intros Hf; simpl; [eauto|].
  destruct (Hf x) as [r ->]; [left|]. simpl.
  destruct IH as [rs ->]; [|simpl; eauto].
  intros y Hy. apply Hf. by right.
Qed.

Lemma descendants_total st P n :
  height st P n → ∀ fuel, n ≤ fuel → ∃ ds, descendants fuel st P = Ok ds.
Proof.
  induction 1 as [P p n Hp _ IH]. intros [|fuel] Hle; [lia|]. simpl.
  rewrite (proj2 (getPath_Ok _ _ _) Hp). simpl.
  apply concatM_total. intros c Hc.
  destruct (IH c Hc fuel) as [ds ->]; [lia|]. simpl. eauto.
Qed.

(** A filter whose callback settles on every element, given enough fuel,
    settles, given enough fuel. *)
Lemma filterM_total {A : Type} (f : nat → A → result bool) (l : list A) :
  (∀ x, x ∈ l → ∃ n b, ∀ fuel, n ≤ fuel → f fuel x = Ok b) →
  ∃ n r, ∀ fuel, n ≤ fuel → filterM (f fuel) l = Ok r.
Proof.
  induction l as [|x l IH]; intros Hf; simpl.
  - by exists 0, [].
  - destruct (Hf x) as (n1 & b & Hb); [left|].
    destruct IH as (n2 & r & Hr); [intros y Hy; apply Hf; by right|].
    exists (n1 `max` n2), (if b then x :: r else r). intros fuel Hle.
    rewrite Hb by lia. simpl. rewrite Hr by lia. done.
Qed.

Lemma isVariable_total st P p parent :
  hasParentNode st P p parent → ∃ b, isVariable st P = Ok b.
Proof.
  intros [Hp Hpar]%parentNode_eval. unfold isVariable.
  rewrite Hp; simpl. rewrite Hpar; simpl.
  repeat match goal with |- context [if ?c then _ else _] => destruct c end; eauto.
Qed.

Lemma isDeclaratorID_total st P p parent :
  hasParentNode st P p parent → ∃ b, isDeclaratorID st P = Ok b.
Proof.
  intros [Hp Hpar]%parentNode_eval. unfold isDeclaratorID.
  rewrite Hp; simpl. rewrite Hpar; simpl.
  repeat match goal with |- context [if ?c then _ else _] => destruct c end; eauto.
Qed.

Lemma closure_total st name sD P p parent :
  hasParentNode st P p parent → is_Some (scopes st !! sD) →
  (isVariable st P = Ok true →
     ∃ ip s, paths st !! P = Some ip ∧ declaring st name (Path.scope ip) s) →
  ∃ n b, ∀ fuel, n ≤ fuel → isDeclaredBy_closure fuel name sD st P = Ok b.
Proof.
  intros Hpar [scD HscD] Hres. unfold isDeclaredBy_closure.
  destruct (isVariable_total _ _ _ _ Hpar) as [[] Hv]; rewrite Hv; simpl.
  - destruct (Hres Hv) as (ip & s & Hip & Hs).
    destruct (declaring_terminates _ _ _ _ Hs) as [n Hn].
    destruct (declaring_declaresAt _ _ _ _ Hs) as (sc & Hsc & _).
    exists (S n), (bool_decide (Scope.path sc = Scope.path scD)). intros fuel Hle.
    rewrite (proj2 (getPath_Ok _ _ _) Hip); simpl. rewrite Hn by lia. simpl.
    rewrite (proj2 (getScope_Ok _ _ _) Hsc); simpl.
    rewrite (proj2 (getScope_Ok _ _ _) HscD); simpl.
    by destruct (bool_decide _).
  - by exists 0, false.
Qed.

Lemma find_total st root n T name :
  height st root n →
  (∀ P, below st root P →
     ∃ p m, paths st !! P = Some p ∧ nodes st !! Path.node p = Some m) →
  ∃ found, ∀ fuel, n ≤ fuel → find fuel st root T name = Ok found.
Proof.
  intros Hh Hnodes.
  destruct (descendants_total _ _ _ Hh n) as [ds Hds]; [done|].
  destruct (filterM_total (λ _, matches st T name) ds) as (n0 & found & Hfound).
  { intros P HP. apply (descendants_below _ _ _ _ Hds) in HP.
    destruct (Hnodes P HP) as (p & m & Hp & Hm). exists 0. eexists. intros _ _.
    unfold matches. rewrite (proj2 (getPath_Ok _ _ _) Hp); simpl.
    by rewrite (proj2 (getNode_Ok _ _ _) Hm). }
  exists found. intros fuel Hle. unfold find.
  rewrite (descendants_mono n fuel), Hds by (done || by rewrite Hds). simpl.
  apply (Hfound n0). lia.
Qed.

Lemma searchable_declaredBy st D name :
  idName st D = Ok name → searchable st D name →
  ∃ n sD, is_Some (scopes st !! sD) ∧
    ∀ fuel, n ≤ fuel →
      isDeclaredBy fuel st D = Ok (isDeclaredBy_closure fuel name sD).
Proof.
  intros Hname [_ (dp & sD & Hdp & HsD)].
  destruct (declaring_terminates _ _ _ _ HsD) as [n Hn].
  destruct (declaring_declaresAt _ _ _ _ HsD) as (sc & Hsc & _).
  exists (S n), sD. split; [by eexists|]. intros fuel Hle.
  apply (isDeclaredBy_eval _ _ _ _ dp); [done..|]. apply Hn. lia.
Qed.

(** The search of [renameTo] completes. *)
Lemma renameTargets_total st D name :
  idName st D = Ok name → searchable st D name →
  ∃ n targets, ∀ fuel, n ≤ fuel → renameTargets fuel st D = Ok targets.
Proof.
  intros Hname Hs.
  destruct (searchable_declaredBy _ _ _ Hname Hs) as (n1 & sD & HsD & HdB).
  destruct Hs as [(root & n2 & Hroot & Hh & Hbelow) _].
  destruct (find_total st root n2 Identifier name Hh) as [found Hfound].
  { intros P HP. by apply Hbelow. }
  destruct (filterM_total (λ fuel, isDeclaredBy_closure fuel name sD st) found)
    as (n3 & targets & Htargets).
  { intros P HP. apply (find_Ok _ _ _ _ _ _ (Hfound n2 (le_n _))) in HP as [HP Hnamed].
    destruct (Hbelow P HP) as [_ Hcand].
    destruct (Hcand Hnamed) as [(p & parent & Hpar) Hres].
    by eapply closure_total. }
  exists ((n1 `max` n2) `max` n3), targets. intros fuel Hle. unfold renameTargets.
  rewrite Hname; simpl. rewrite Hroot; simpl. rewrite Hfound by lia. simpl.
  rewrite HdB by lia. simpl. apply Htargets. lia.
Qed.

Lemma replaceName_total newName st l :
  (∀ P, P ∈ l → ∃ p m, paths st !! P = Some p ∧ nodes st !! Path.node p = Some m) →
  ∃ st', forEachM (replaceName newName) st l = Ok st'.
Proof.
  revert st. induction l as [|P l IH]; intros st Hl; [by exists st|].
  destruct (Hl P) as (p & m & Hp & Hm); [left|].
  assert (replaceName newName st P =
          Ok (mkStore (alter (Node.set_name newName) (Path.node p) (nodes st))
                      (paths st) (scopes st))) as Hr.
  { unfold replaceName. rewrite (proj2 (getPath_Ok _ _ _) Hp); simpl.
    by rewrite (proj2 (getNode_Ok _ _ _) Hm). }
  cbn [forEachM]. rewrite Hr. simpl.
  apply IH. intros Q HQ. destruct (Hl Q) as (q & mq & Hq & Hmq); [by right|].
  simpl. exists q. rewrite lookup_alter. case_decide as Heq.
  - rewrite Heq, Hmq. simpl. eauto.
  - eauto.
Qed.

(** The callback of [renameTo] completes on a searchable declarator, for
    every fuel from some fuel on. *)
Lemma renameDeclarator_total newName st D name :
  idName st D = Ok name → searchable st D name →
  ∃ n st', ∀ fuel, n ≤ fuel → renameDeclarator fuel newName st D = Ok st'.
Proof.
  intros Hname Hs.
  destruct (renameTargets_total _ _ _ Hname Hs) as (n & targets & Htargets).
  destruct (replaceName_total newName st targets) as [st' Hst'].
  { intros P HP.
    destruct (renameTargets_Ok _ _ _ _ (Htargets n (le_n _)))
      as (oldName & root & declaredBy & Hn' & Hroot & HdB & Hchar).
    destruct (proj1 (Hchar P) HP) as (Hb & (p & m & Hp & Hm & Hrest) & Hd). eauto. }
  exists n, st'. intros fuel Hle. unfold renameDeclarator.
  by rewrite Htargets.
Qed.

(** The count of references completes. *)
Lemma references_total st D name :
  idName st D = Ok name → searchable st D name →
  ∃ n refs, ∀ fuel, n ≤ fuel → references fuel st D name = Ok refs.
Proof.
  intros Hname Hs.
  destruct (searchable_declaredBy _ _ _ Hname Hs) as (n1 & sD & HsD & HdB).
  destruct Hs as [(root & n2 & Hroot & Hh & Hbelow) _].
  destruct (find_total st root n2 Identifier name Hh) as [found Hfound].
  { intros P HP. by apply Hbelow. }
  pose proof (find_Ok _ _ _ _ _ _ (Hfound n2 (le_n _))) as Hchar.
  destruct (filterM_total (λ _ path, b ← isDeclaratorID st path; Ok (negb b)) found)
    as (n4 & uses & Huses).
  { intros P [HP Hnamed]%Hchar.
    destruct (Hbelow P HP) as [_ Hcand].
    destruct (Hcand Hnamed) as [(p & parent & Hpar) _].
    destruct (isDeclaratorID_total _ _ _ _ Hpar) as [b Hb].
    exists 0, (negb b). intros _ _. by rewrite Hb. }
  destruct (filterM_total (λ fuel, isDeclaredBy_closure fuel name sD st) uses)
    as (n3 & refs & Hrefs).
  { intros P HP.
    apply (filterM_Ok _ _ _ (Huses n4 (le_n _))) in HP as [HP _].
    apply Hchar in HP as [HP Hnamed].
    destruct (Hbelow P HP) as [_ Hcand].
    destruct (Hcand Hnamed) as [(p & parent & Hpar) Hres].
    by eapply closure_total. }
  exists ((n1 `max` n2) `max` n3), refs. intros fuel Hle. unfold references.
  rewrite Hroot; simpl. rewrite Hfound by lia. simpl.
  rewrite (Huses n4) by lia. simpl.
  rewrite HdB by lia. simpl. apply Hrefs. lia.
Qed.

Lemma unreferenced_total st D name :
  idName st D = Ok name → (truthy name = true → searchable st D name) →
  ∃ n b, ∀ fuel, n ≤ fuel → unreferenced fuel st D = Ok b.
Proof.
  intros Hname Hs. unfold unreferenced. rewrite Hname. simpl.
  destruct (truthy name) eqn:Ht; simpl; [|by exists 0, false].
  destruct (references_total _ _ _ Hname (Hs eq_refl)) as (n & refs & Hrefs).
  exists n. eexists. intros fuel Hle. by rewrite Hrefs.
Qed.

Lemma prunable_shrinks st st' q : shrinks st st' → prunable st q → prunable st' q.
Proof.
  intros Hs (qp & pp & ppr & gp & gpr & Hqp & Hpar & Hppr & [n Hn] & Hgp & Hgpr & [m Hm]).
  destruct (shrinks_path _ _ _ _ Hs Hqp) as (qp' & Hqp' & Hl1).
  destruct (shrinks_path _ _ _ _ Hs Hppr) as (ppr' & Hppr' & Hl2).
  destruct (shrinks_path _ _ _ _ Hs Hgpr) as (gpr' & Hgpr' & Hl3).
  unfold pathLinks in *. injection Hl1 as ? ? ?. injection Hl2 as ? ? ?.
  injection Hl3 as ? ? ?.
  exists qp', pp, ppr', gp, gpr'. split_and!; try congruence.
  - replace (Path.node ppr') with (Path.node ppr) by done.
    destruct (shrinks_node_exists _ _ _ _ Hs Hn); eauto.
  - replace (Path.node gpr') with (Path.node gpr) by done.
    destruct (shrinks_node_exists _ _ _ _ Hs Hm); eauto.
Qed.

Lemma spliceOut_total st q qp pp ppr :
  paths st !! q = Some qp → Path.parent qp = Some pp →
  paths st !! pp = Some ppr → is_Some (nodes st !! Path.node ppr) →
  ∃ st', spliceOut st q = Ok st'.
Proof.
  intros Hqp Hpar Hppr [n Hn]. unfold spliceOut.
  rewrite (proj2 (getPath_Ok _ _ _) Hqp); simpl. rewrite Hpar.
  rewrite (proj2 (getPath_Ok _ _ _) Hppr); simpl.
  rewrite (proj2 (getNode_Ok _ _ _) Hn); simpl. eauto.
Qed.

Lemma prune_total st q : prunable st q → ∃ st', prune st q = Ok st'.
Proof.
  intros Hq.
  pose proof Hq as (qp & pp & ppr & gp & gpr & Hqp & Hpar & Hppr & Hn & Hgp & Hgpr & Hm).
  destruct (spliceOut_total _ _ _ _ _ Hqp Hpar Hppr Hn) as [st1 H1].
  pose proof (prunable_shrinks _ _ _ (spliceOut_shrinks _ _ _ H1) Hq)
    as (qp1 & pp1 & ppr1 & gp1 & gpr1 & Hqp1 & Hpar1 & Hppr1 & [n1 Hn1] & Hgp1 & Hgpr1 & Hm1).
  destruct (shrinks_path _ _ _ _ (spliceOut_shrinks _ _ _ H1) Hqp) as (qp' & Hqp' & Hl).
  assert (qp' = qp1) as -> by congruence.
  unfold pathLinks in Hl. injection Hl as _ Hparent _.
  assert (pp1 = pp) as -> by congruence.
  unfold prune. rewrite (proj2 (getPath_Ok _ _ _) Hqp); simpl. rewrite H1; simpl.
  rewrite Hpar. rewrite (proj2 (getPath_Ok _ _ _) Hppr1); simpl.
  rewrite (proj2 (getNode_Ok _ _ _) Hn1); simpl.
  destruct (check VariableDeclaration n1 && _); [|eauto].
  by eapply spliceOut_total.
Qed.

Lemma forEachM_prune_total st l :
  (∀ q, q ∈ l → prunable st q) → ∃ st', forEachM prune st l = Ok st'.
Proof.
  revert st. induction l as [|q l IH]; intros st Hl; simpl; [eauto|].
  destruct (prune_total st q) as [st1 H1]; [apply Hl; left|].
  rewrite H1. simpl. apply IH. intros q' Hq'.
  eapply prunable_shrinks; [by eapply prune_shrinks|]. apply Hl. by right.
Qed.

(** [removeUnreferenced] completes on a collection of declarators that are
    searchable (when their [id] has a name) and prunable, for every fuel
    from some fuel on. *)
Lemma removeUnreferenced_total st this :
  (∀ D, D ∈ this →
     prunable st D ∧
     ∃ name, idName st D = Ok name ∧ (truthy name = true → searchable st D name)) →
  ∃ n st' removed,
    ∀ fuel, n ≤ fuel → removeUnreferenced fuel st this = Ok (st', removed).
Proof.
  intros Hthis.
  destruct (filterM_total (λ fuel, unreferenced fuel st) this) as (n & removed & Hsel).
  { intros D HD. destruct (Hthis D HD) as [_ (name & Hname & Hs)].
    by eapply unreferenced_total. }
  destruct (forEachM_prune_total st removed) as [st' Hst'].
  { intros D HD. apply (filterM_Ok _ _ _ (Hsel n (le_n _))) in HD as [HD _].
    by apply Hthis. }
  exists n, st', removed. intros fuel Hle. unfold removeUnreferenced, remove.
  rewrite Hsel by done. simpl. by rewrite Hst'.
Qed.

(** ** The root of the search *)

(** C4. In [try {} catch (e) { var x = 1; } g(x);] the declarator of [x]
    (path 7) has the catch clause's scope, whose path is the catch clause
    (path 3), while the upward walk finds its declaring scope in the
    program's scope, whose path is the program (path 0).  [renameTo]
    searches below path 3: the [x] of [g(x)] (path 13) is below the
    program but not below the catch clause, so it is not found and keeps
    its name, although [isDeclaredBy] answers [true] on it; the binding
    identifier (path 8) is renamed. *)
Theorem renameTo_searches_below_the_syntactic_scope :
  scopePath Sample.catchVar 7 = Ok 3 ∧
  declaring Sample.catchVar (Some "x") (Some 1) 0 ∧
  Scope.path <$> scopes Sample.catchVar !! 0 = Some 0 ∧
  declaredByAt 10 Sample.catchVar 7 13 = Ok true ∧
  below Sample.catchVar 0 13 ∧ ¬ below Sample.catchVar 3 13 ∧
  renameTargets 10 Sample.catchVar 7 = Ok [8] ∧
  renameDeclarator 10 "z" Sample.catchVar 7 = Ok catchVarRenamed ∧
  Node.name <$> nodes catchVarRenamed !! 8 = Some (Some "z") ∧
  Node.name <$> nodes catchVarRenamed !! 13 = Some (Some "x").
Proof.
  split_and!; try (vm_compute; reflexivity).
  - eapply declaring_up; [reflexivity..|]. eapply declaring_here; reflexivity.
  - eapply (below_iff_descendant 10); [vm_compute; reflexivity|].
    apply (bool_decide_unpack _). vm_compute. exact I.
  - intros Hb. eapply (below_iff_descendant 10) in Hb; [|vm_compute; reflexivity].
    revert Hb. apply (bool_decide_unpack _). vm_compute. exact I.
Qed.

(** ** Which identifiers are renamed *)

(** In the sample program the [foo] of [foo[bar]()] (path 21) is an
    identifier below the searched root on which the predicate for the
    declarator of [bar] answers [true]: the predicate does not look at the
    name of the identifier.  The search, which does, leaves it alone. *)
Lemma renameTo_renames_every_match_counterexample :
  renameDeclarator 10 "xyz" Sample.shadow 2 = Ok shadowRenamed ∧
  declaredByAt 10 Sample.shadow 2 21 = Ok true ∧
  Node.name <$> nodes shadowRenamed !! 21 = Some (Some "foo") ∧
  ¬ renamesEverySatisfying 10 "xyz" Sample.shadow 2 shadowRenamed.
Proof.
  split_and!; try (vm_compute; reflexivity).
  intros Hclaim.
  specialize (Hclaim 0 (isDeclaredBy_closure 10 (Some "bar") 0) 21
                (Path.mk 21 (Some 20) (Some 0) []) (Sample.ident "foo")).
  discriminate Hclaim; try reflexivity.
  eapply (below_iff_descendant 10); [vm_compute; reflexivity|].
  apply (bool_decide_unpack _). vm_compute. exact I.
Qed.

(** ** requiresModule *)

Section RequiresModuleFacts.
Variable astNodesAreEquivalent : Store → option NodeId → Built → bool.

Lemma elementsOf_given names ns :
  namesGiven names = Some ns →
  namesTruthy names = true ∧
  elementsOf (if namesTruthy names && negb (isArray names)
              then match names with OneName n => ManyNames [n] | _ => names end
              else names) = ns ∧
  namesTruthy (if namesTruthy names && negb (isArray names)
               then match names with OneName n => ManyNames [n] | _ => names end
               else names) = true.
Proof.
  destruct names as [|n|l]; simpl; [done| |by intros [= ->]].
  destruct (negb (n =? "")%string) eqn:E; [|done]. simpl. by intros [= <-].
Qed.

Lemma elementsOf_not_given names :
  namesGiven names = None →
  namesTruthy (if namesTruthy names && negb (isArray names)
               then match names with OneName n => ManyNames [n] | _ => names end
               else names) = false.
Proof.
  destruct names as [|n|l]; simpl; [done| |done].
  by destruct (negb (n =? "")%string) eqn:E; simpl.
Qed.

(** C10, amended. The predicate of [requiresModule(names)] returns [true]
    on a path iff its node is a variable declarator whose [init] is a call
    expression whose callee is equivalent to the identifier [require]
    and, when names are given, whose first argument is equivalent to the
    literal of one of them; an array gives its elements, a non-empty
    string gives itself alone, and no argument or the empty string gives
    no names, so that every such declarator matches. *)
Theorem requiresModule_true_iff names st path :
  requiresModule astNodesAreEquivalent names st path = Ok true ↔
  requireDeclarator astNodesAreEquivalent st path (namesGiven names).
Proof.
  unfold requiresModule, requireDeclarator. split.
  - intros H. inv_ok H. rename a into p, a0 into node.
    rewrite check_VariableDeclarator in H.
    case_bool_decide as Hty; simpl in H; [|done].
    destruct (Node.init node) as [i|] eqn:Hi; [|done].
    inv_ok H. rename a into init.
    rewrite check_CallExpression in H.
    case_bool_decide as Hty'; simpl in H; [|done].
    destruct (astNodesAreEquivalent st (Node.callee init) _) eqn:Hcallee;
      simpl in H; [|done].
    injection H as H. exists p, node, i, init. split_and!; try done.
    destruct (namesGiven names) as [ns|] eqn:Hg; [|done].
    destruct (elementsOf_given _ _ Hg) as (_ & Hel & Htr).
    rewrite Htr, Hel in H. simpl in H.
    apply existsb_exists in H as (n & Hn & Heq).
    exists n. split; [by apply list_elem_of_In|done].
  - intros (p & node & i & init & Hp & Hnode & Hty & Hi & Hinit & Hty' & Hcallee & Hnames).
    rewrite (proj2 (getPath_Ok _ _ _) Hp); simpl.
    rewrite (proj2 (getNode_Ok _ _ _) Hnode); simpl.
    rewrite check_VariableDeclarator, bool_decide_eq_true_2 by done. simpl.
    rewrite Hi. rewrite (proj2 (getNode_Ok _ _ _) Hinit); simpl.
    rewrite check_CallExpression, bool_decide_eq_true_2 by done.
    rewrite Hcallee. simpl. f_equal.
    destruct (namesGiven names) as [ns|] eqn:Hg.
    + destruct (elementsOf_given _ _ Hg) as (_ & Hel & Htr).
      rewrite Htr, Hel. simpl.
      destruct Hnames as (n & Hn & Heq).
      apply existsb_exists. exists n. split; [by apply list_elem_of_In|done].
    + by rewrite (elementsOf_not_given _ Hg).
Qed.
End RequiresModuleFacts.

(** [requiresModule('')] matches [var bar = require("module")], whose
    argument is not the literal of the empty string. *)
Lemma requiresModule_single_name_counterexample :
  requiresModule structurallyEqual (OneName "") Sample.shadow 2 = Ok true ∧
  ¬ requireDeclarator structurallyEqual Sample.shadow 2 (namesAsStated (OneName "")) ∧
  ¬ (requiresModule structurallyEqual (OneName "") Sample.shadow 2 = Ok true ↔
     requireDeclarator structurallyEqual Sample.shadow 2 (namesAsStated (OneName ""))).
Proof.
  assert (¬ requireDeclarator structurallyEqual Sample.shadow 2
            (namesAsStated (OneName ""))) as Hno.
  { intros (p & node & i & init & Hp & Hnode & _ & Hi & Hinit & _ & _ & n & Hn & Heq).
    apply list_elem_of_singleton in Hn as ->.
    vm_compute in Hp. injection Hp as <-.
    vm_compute in Hnode. injection Hnode as <-.
    vm_compute in Hi. injection Hi as <-.
    vm_compute in Hinit. injection Hinit as <-.
    vm_compute in Heq. discriminate Heq. }
  split; [reflexivity|]. split; [exact Hno|].
  intros [Hiff _]. apply Hno, Hiff. reflexivity.
Qed.

(** ** Further properties of the filters *)

Lemma isDeclaratorID_false_iff st path p parent :
  hasParentNode st path p parent →
  isDeclaratorID st path = Ok false ↔ ¬ bindingPosition parent (Path.node p).
Proof.
  intros Hpar. rewrite <- (isDeclaratorID_true_iff _ _ _ _ Hpar).
  destruct (isDeclaratorID_total _ _ _ _ Hpar) as [[] ->]; naive_solver.
Qed.

Lemma binding_not_nameOnly parent n :
  bindingPosition parent n → ¬ nameOnly parent n.
Proof. unfold bindingPosition, nameOnly. naive_solver congruence. Qed.

(** X1. Under a parent, [isDeclaratorID] returns [true] exactly when the node
    is the [id] of a variable declarator, function declaration, class
    declaration or type alias -- what [TypeAlias.check] accepts, the alias
    of a [declare type] statement included -- and [false] in every other
    position.  A binding identifier is always a variable for [isVariable],
    and an identifier in a name-only position is never a binding
    identifier. *)
Theorem isDeclaratorID_classifies st path p parent :
  hasParentNode st path p parent →
  (isDeclaratorID st path = Ok true ↔ bindingPosition parent (Path.node p)) ∧
  (isDeclaratorID st path = Ok false ↔ ¬ bindingPosition parent (Path.node p)) ∧
  (isDeclaratorID st path = Ok true → isVariable st path = Ok true) ∧
  (isVariable st path = Ok false → isDeclaratorID st path = Ok false).
Proof.
  intros Hpar. split_and!.
  - by apply isDeclaratorID_true_iff.
  - by apply isDeclaratorID_false_iff.
  - intros Hb%(isDeclaratorID_true_iff _ _ _ _ Hpar).
    apply (isVariable_true_iff _ _ _ _ Hpar). by apply binding_not_nameOnly.
  - intros Hn%(isVariable_false_iff _ _ _ _ Hpar).
    apply (isDeclaratorID_false_iff _ _ _ _ Hpar).
    intros Hb. by apply (binding_not_nameOnly _ _ Hb).
Qed.

Lemma isDeclaratorID_classifies_witness :
  (isDeclaratorID Sample.shadow 3 = Ok true ∧ isVariable Sample.shadow 3 = Ok true) ∧
  isDeclaratorID Sample.declaredAlias 6 = Ok true.
Proof.
  split.
  - destruct (isDeclaratorID_classifies Sample.shadow 3
                (Path.mk 3 (Some 2) (Some 0) []) (Sample.declarator 3 (Some 4)))
      as (Hiff & _ & Himp & _).
    + split; [reflexivity|].
      exists 2, (Path.mk 2 (Some 1) (Some 0) [3; 4]).
      split; [reflexivity|]. split; reflexivity.
    + assert (isDeclaratorID Sample.shadow 3 = Ok true) as H.
      { apply Hiff. split; [reflexivity|]. left. reflexivity. }
      split; [exact H|exact (Himp H)].
  - assert (hasParentNode Sample.declaredAlias 6 (Path.mk 6 (Some 5) (Some 0) [])
              (Sample.named DeclareTypeAlias 6)) as Hpar.
    { split; [reflexivity|].
      exists 5, (Path.mk 5 (Some 0) (Some 0) [6; 7]).
      split; [reflexivity|]. split; reflexivity. }
    apply (proj2 (proj1 (isDeclaratorID_classifies _ _ _ _ Hpar))).
    split; [reflexivity|]. right; right; right; right. reflexivity.
Defined.

Lemma filterM_throws_at {A : Type} (f : A → result bool) (l1 l2 : list A) x e :
  (∀ y, y ∈ l1 → ∃ b, f y = Ok b) → f x = Throw e →
  filterM f (l1 ++ x :: l2) = Throw e.
Proof.
  intros Hl1 Hx. induction l1 as [|y l1 IH]; simpl.
  - by rewrite Hx.
  - destruct (Hl1 y) as [b ->]; [left|]. simpl.
    rewrite IH; [done|]. intros z Hz. apply Hl1. by right.
Qed.

(** X2. On a root path, whose [parent] is [null], [isVariable],
    [isDeclaratorID] and the predicate of [isDeclaredBy] throw a TypeError
    when they read [path.parent.node]; a collection filtered by one of them
    throws as soon as it reaches such a path. *)
Theorem filters_throw_on_a_root_path st path p :
  paths st !! path = Some p → Path.parent p = None →
  isVariable st path = Throw TypeError ∧
  isDeclaratorID st path = Throw TypeError ∧
  (∀ fuel name sD, isDeclaredBy_closure fuel name sD st path = Throw TypeError) ∧
  (∀ l1 l2 : list nat,
     (∀ y, y ∈ l1 → ∃ b, isVariable st y = Ok b) →
     filterM (isVariable st) (l1 ++ path :: l2) = Throw TypeError) ∧
  (∀ l1 l2 : list nat,
     (∀ y, y ∈ l1 → ∃ b, isDeclaratorID st y = Ok b) →
     filterM (isDeclaratorID st) (l1 ++ path :: l2) = Throw TypeError).
Proof.
  intros Hp Hpar.
  assert (isVariable st path = Throw TypeError) as Hv.
  { unfold isVariable, parentNode.
    rewrite (proj2 (getPath_Ok _ _ _) Hp); simpl. by rewrite Hpar. }
  assert (isDeclaratorID st path = Throw TypeError) as Hd.
  { unfold isDeclaratorID, parentNode.
    rewrite (proj2 (getPath_Ok _ _ _) Hp); simpl. by rewrite Hpar. }
  split_and!; try done.
  - intros fuel name sD. unfold isDeclaredBy_closure. by rewrite Hv.
  - intros l1 l2 Hl1. by apply filterM_throws_at.
  - intros l1 l2 Hl1. by apply filterM_throws_at.
Qed.

Lemma filters_throw_on_a_root_path_witness :
  isVariable Sample.shadow 0 = Throw TypeError ∧
  isDeclaratorID Sample.shadow 0 = Throw TypeError.
Proof.
  destruct (filters_throw_on_a_root_path Sample.shadow 0
              (Path.mk 0 None (Some 0) [1; 7; 13; 18; 23]) eq_refl eq_refl)
    as (Hv & Hd & _).
  split; [exact Hv|exact Hd].
Defined.

(** X3. The predicate made by [isDeclaredBy] answers [false] on every path
    that [isVariable] rejects, without walking the scopes; on two paths in
    variable positions that have the same scope it gives the same outcome:
    it looks at the position and at the scope of the candidate, never at
    its name. *)
Theorem isDeclaredBy_reads_position_and_scope fuel st D declaredBy :
  isDeclaredBy fuel st D = Ok declaredBy →
  (∀ P, isVariable st P = Ok false → declaredBy st P = Ok false) ∧
  (∀ P Q p q,
     paths st !! P = Some p → paths st !! Q = Some q →
     isVariable st P = Ok true → isVariable st Q = Ok true →
     Path.scope p = Path.scope q →
     declaredBy st P = declaredBy st Q).
Proof.
  intros (name & dp & sD & _ & _ & _ & ->)%isDeclaredBy_Ok. split.
  - intros P Hv. unfold isDeclaredBy_closure. by rewrite Hv.
  - intros P Q p q Hp Hq HvP HvQ Hsc. unfold isDeclaredBy_closure.
    rewrite HvP, HvQ; simpl.
    rewrite (proj2 (getPath_Ok _ _ _) Hp), (proj2 (getPath_Ok _ _ _) Hq); simpl.
    by rewrite Hsc.
Qed.

Lemma isDeclaredBy_reads_position_and_scope_witness :
  ∃ declaredBy,
    isDeclaredBy 10 Sample.shadow 2 = Ok declaredBy ∧
    declaredBy Sample.shadow 17 = Ok false ∧
    declaredBy Sample.shadow 21 = declaredBy Sample.shadow 26.
Proof.
  exists (isDeclaredBy_closure 10 (Some "bar") 0).
  destruct (isDeclaredBy_reads_position_and_scope 10 Sample.shadow 2
              (isDeclaredBy_closure 10 (Some "bar") 0) eq_refl) as [Hfalse Hsame].
  split; [reflexivity|]. split.
  - apply Hfalse. reflexivity.
  - apply (Hsame 21 26 (Path.mk 21 (Some 20) (Some 0) [])
             (Path.mk 26 (Some 25) (Some 0) [])); reflexivity.
Defined.

(** ** Further properties of [renameTo] *)

Lemma renameTo_single fuel newName st D :
  renameTo fuel newName st [D] =
  st' ← renameDeclarator fuel newName st D; Ok (st', [D]).
Proof. unfold renameTo. simpl. by destruct (renameDeclarator fuel newName st D). Qed.

(** X4. On a declarator whose [id] has no name (a destructuring pattern),
    in a finite scope chain of which no scope binds a variable called
    [undefined], [renameTo] never completes: once its search has returned,
    [isDeclaredBy] walks past the root scope and throws a TypeError, and no
    identifier is renamed -- whereas the callback of [removeUnreferenced]
    answers [false] for the same declarator. *)
Theorem renameTo_throws_on_a_pattern newName st D dp l :
  idName st D = Ok None → paths st !! D = Some dp →
  chain st (Path.scope dp) l →
  (∀ s, s ∈ l → ¬ declaresAt st None s) →
  (∀ fuel st', renameDeclarator fuel newName st D ≠ Ok st') ∧
  (∀ fuel r, renameTo fuel newName st [D] ≠ Ok r) ∧
  (∀ fuel root found,
     length l < fuel → scopePath st D = Ok root →
     find fuel st root Identifier None = Ok found →
     found = [] ∧
     renameDeclarator fuel newName st D = Throw TypeError ∧
     renameTo fuel newName st [D] = Throw TypeError) ∧
  (∀ fuel, unreferenced fuel st D = Ok false).
Proof.
  intros Hname Hdp Hchain Hno.
  assert (∀ fuel st', renameDeclarator fuel newName st D ≠ Ok st') as Hnever.
  { intros fuel st' H. unfold renameDeclarator in H. inv_ok H.
    destruct (renameTargets_Ok _ _ _ _ Ha)
      as (oldName & root & declaredBy & Hn & Hroot & HdB & Hchar).
    apply isDeclaredBy_Ok in HdB as (name & dp' & sD & Hn' & Hdp' & Hw & Heq).
    assert (name = None) as -> by congruence.
    assert (dp' = dp) as -> by congruence.
    apply declaringScopeOf_sound in Hw.
    by eapply chain_undeclared_no_scope. }
  split_and!; try done.
  - intros fuel r H. rewrite renameTo_single in H. inv_ok H. by eapply Hnever.
  - intros fuel root found Hf Hroot Hfound.
    assert (found = []) as ->.
    { destruct found as [|P found]; [done|]. exfalso.
      destruct (proj1 (find_Ok _ _ _ _ _ _ Hfound P)) as [_ Hnamed]; [left|].
      destruct Hnamed as (p & n & _ & _ & _ & _ & [x Hx]). done. }
    assert (renameDeclarator fuel newName st D = Throw TypeError) as Hthrow.
    { unfold renameDeclarator, renameTargets.
      rewrite Hname; simpl. rewrite Hroot; simpl. rewrite Hfound; simpl.
      unfold isDeclaredBy. rewrite Hname; simpl.
      rewrite (proj2 (getPath_Ok _ _ _) Hdp); simpl.
      by rewrite (chain_undeclared_throws _ _ _ _ Hchain Hno fuel Hf). }
    split; [done|]. split; [done|]. by rewrite renameTo_single, Hthrow.
  - intros fuel. by apply unreferenced_without_name.
Qed.

Lemma renameTo_throws_on_a_pattern_witness :
  renameTo 10 "q" Sample.destructured [2] = Throw TypeError ∧
  unreferenced 10 Sample.destructured 2 = Ok false.
Proof.
  destruct (renameTo_throws_on_a_pattern "q" Sample.destructured 2
              (Path.mk 2 (Some 1) (Some 0) [3; 6]) [0])
    as (_ & _ & Hthrow & Hskip).
  - reflexivity.
  - reflexivity.
  - eapply chain_step; [reflexivity|]. apply chain_root.
  - intros s Hs. apply list_elem_of_singleton in Hs as ->.
    eapply not_declaresAt_eval; reflexivity.
  - destruct (Hthrow 10 0 []) as (_ & _ & H).
    + simpl. lia.
    + reflexivity.
    + vm_compute. reflexivity.
    + split; [exact H|exact (Hskip 10)].
Defined.

Lemma onlyRenamed_refl newName st : onlyRenamed newName st st.
Proof. split; [done|]. split; [done|]. by left. Qed.

Lemma onlyRenamed_trans newName st1 st2 st3 :
  onlyRenamed newName st1 st2 → onlyRenamed newName st2 st3 →
  onlyRenamed newName st1 st3.
Proof.
  intros (Hp1 & Hs1 & Hn1) (Hp2 & Hs2 & Hn2).
  split; [congruence|]. split; [congruence|]. intros i.
  destruct (Hn2 i) as [->| ->], (Hn1 i) as [->| ->]; auto.
  right. destruct (nodes st1 !! i); simpl; [|done]. by rewrite set_name_twice.
Qed.

Lemma renameDeclarator_onlyRenamed fuel newName st D st' :
  renameDeclarator fuel newName st D = Ok st' → onlyRenamed newName st st'.
Proof.
  unfold renameDeclarator. intros H. inv_ok H.
  destruct (replaceName_each _ _ _ _ H) as (Hp & Hs & Hin & Hout).
  split; [done|]. split; [done|]. intros i.
  destruct (decide (i ∈ nodesOf st a)); [right; by apply Hin|left; by apply Hout].
Qed.

Lemma forEachM_renameDeclarator_onlyRenamed fuel newName st this st' :
  forEachM (renameDeclarator fuel newName) st this = Ok st' →
  onlyRenamed newName st st'.
Proof.
  revert st. induction this as [|D this IH]; intros st H; simpl in H.
  - injection H as <-. apply onlyRenamed_refl.
  - inv_ok H. eapply onlyRenamed_trans; [by eapply renameDeclarator_onlyRenamed|].
    by apply IH.
Qed.

(** X5. When [renameTo] completes on a collection, however many declarators
    it holds, it returns that same collection; paths and scopes are
    untouched, no node is added or removed, and every node is as before
    except that its [name] may have become [newName]: nothing but names is
    ever written, and no other name than [newName]. *)
Theorem renameTo_writes_names_only fuel newName st this st' returned :
  renameTo fuel newName st this = Ok (st', returned) →
  returned = this ∧
  paths st' = paths st ∧ scopes st' = scopes st ∧
  (∀ i, nodes st' !! i = nodes st !! i ∨
        nodes st' !! i = Node.set_name newName <$> nodes st !! i) ∧
  (∀ i n', nodes st' !! i = Some n' →
     ∃ n, nodes st !! i = Some n ∧ Node.type n' = Node.type n ∧
          Node.id n' = Node.id n ∧ Node.init n' = Node.init n ∧
          Node.declarations n' = Node.declarations n ∧
          (Node.name n' = Node.name n ∨ Node.name n' = Some newName)).
Proof.
  unfold renameTo. intros H. inv_ok H. injection H as <- <-.
  destruct (forEachM_renameDeclarator_onlyRenamed _ _ _ _ _ Ha) as (Hp & Hs & Hn).
  split_and!; try done.
  intros i n' Hn'. destruct (Hn i) as [Heq|Heq]; rewrite Hn' in Heq.
  - exists n'. split_and!; auto.
  - destruct (nodes st !! i) as [n|]; [|done]. injection Heq as ->.
    exists n. split_and!; auto.
Qed.

Lemma renameTo_writes_names_only_witness :
  renameTo 10 "xyz" Sample.shadow [2] = Ok (shadowRenamed, [2]) ∧
  paths shadowRenamed = paths Sample.shadow ∧
  scopes shadowRenamed = scopes Sample.shadow.
Proof.
  assert (renameTo 10 "xyz" Sample.shadow [2] = Ok (shadowRenamed, [2])) as H
    by (vm_compute; reflexivity).
  destruct (renameTo_writes_names_only 10 "xyz" Sample.shadow [2] shadowRenamed [2] H)
    as (_ & Hp & Hs & _).
  split; [exact H|]. split; [exact Hp|exact Hs].
Defined.

Lemma set_name_same s n : Node.name n = Some s → Node.set_name s n = n.
Proof. destruct n. simpl. by intros ->. Qed.

Lemma Store_eq st st' :
  nodes st' = nodes st → paths st' = paths st → scopes st' = scopes st → st' = st.
Proof. destruct st, st'. simpl. by intros -> -> ->. Qed.

(** X6. Renaming a declarator to the name it already has changes nothing:
    when the callback of [renameTo] completes with [newName] equal to the
    declarator's name, the store it leaves is the store it was given. *)
Theorem renameTo_to_the_same_name fuel st D name st' :
  idName st D = Ok (Some name) →
  renameDeclarator fuel name st D = Ok st' →
  st' = st ∧ renameTo fuel name st [D] = Ok (st, [D]).
Proof.
  intros Hname Hrun.
  assert (st' = st) as ->; [|split; [done|by rewrite renameTo_single, Hrun]].
  revert Hrun. unfold renameDeclarator. intros H. inv_ok H. rename a into targets.
  destruct (renameTargets_Ok _ _ _ _ Ha)
    as (oldName & root & declaredBy & Hn & Hroot & HdB & Hchar).
  assert (oldName = Some name) as -> by congruence.
  destruct (replaceName_each _ _ _ _ H) as (Hp & Hs & Hin & Hout).
  apply Store_eq; [|done..]. apply map_eq. intros i.
  destruct (decide (i ∈ nodesOf st targets)) as [Hi|Hi]; [|by apply Hout].
  rewrite (Hin i Hi).
  apply elem_of_nodesOf in Hi as (P & p & HP & Hpath & <-).
  destruct (proj1 (Hchar P) HP) as (Hb & (p2 & n & Hp2 & Hnode & Hty & Hnm & Hsome) & Hd).
  assert (p2 = p) as -> by congruence.
  rewrite Hnode. simpl. by rewrite set_name_same.
Qed.

Lemma renameTo_to_the_same_name_witness :
  renameTo 10 "bar" Sample.shadow [2] = Ok (Sample.shadow, [2]).
Proof.
  apply (renameTo_to_the_same_name 10 Sample.shadow 2 "bar" Sample.shadow).
  - reflexivity.
  - vm_compute. reflexivity.
Defined.

(** X7. When the callback of [renameTo] completes, an identifier path whose
    nearest declaring scope for the declarator's name is not the
    declarator's declaring scope -- a use that an inner declaration
    shadows, or a use in a sibling scope -- is not among the renamed ones;
    if its node is the node of no other path, the node is as before. *)
Theorem renameTo_leaves_other_scopes fuel newName st D dp name sD st' :
  scopePathsInjective st →
  idName st D = Ok name → paths st !! D = Some dp →
  declaring st name (Path.scope dp) sD →
  renameDeclarator fuel newName st D = Ok st' →
  ∃ targets,
    renameTargets fuel st D = Ok targets ∧
    ∀ P p sP,
      paths st !! P = Some p → declaring st name (Path.scope p) sP → sP ≠ sD →
      (P ∉ targets) ∧
      ((∀ Q q, paths st !! Q = Some q → Path.node q = Path.node p → Q = P) →
       nodes st' !! Path.node p = nodes st !! Path.node p).
Proof.
  intros Hinj Hname Hdp HsD Hrun.
  revert Hrun. unfold renameDeclarator. intros H. inv_ok H. rename a into targets.
  exists targets. split; [done|]. intros P p sP Hp HsP Hne.
  destruct (renameTargets_Ok _ _ _ _ Ha)
    as (oldName & root & declaredBy & Hn & Hroot & HdB & Hchar).
  assert (P ∉ targets) as Hnot.
  { intros HP. destruct (proj1 (Hchar P) HP) as (Hb & Hnamed & Htrue).
    apply isDeclaredBy_Ok in HdB as (name2 & dp2 & sD2 & Hn2 & Hdp2 & Hw & ->).
    assert (name2 = name) as -> by congruence.
    assert (dp2 = dp) as -> by congruence.
    pose proof (declaring_functional _ _ _ _ _ (declaringScopeOf_sound _ _ _ _ _ Hw) HsD)
      as ->.
    apply closure_true_iff in Htrue
      as (Hv & ip & sP2 & scP & scD & Hip & HwP & HscP & HscD & Heq).
    assert (ip = p) as -> by congruence.
    pose proof (declaring_functional _ _ _ _ _ (declaringScopeOf_sound _ _ _ _ _ HwP) HsP)
      as ->.
    apply Hne. by eapply Hinj. }
  split; [done|]. intros Hshare.
  destruct (replaceName_each _ _ _ _ H) as (Hp1 & Hs1 & Hin & Hout).
  apply Hout. intros (Q & q & HQ & Hq & Hnode)%elem_of_nodesOf.
  apply Hnot. by rewrite <- (Hshare Q q Hq Hnode).
Qed.

Lemma renameTo_leaves_other_scopes_witness :
  ∃ targets, renameTargets 10 Sample.shadow 2 = Ok targets ∧ (12 ∉ targets).
Proof.
  destruct (renameTo_leaves_other_scopes 10 "xyz" Sample.shadow 2
              (Path.mk 2 (Some 1) (Some 0) [3; 4]) (Some "bar") 0 shadowRenamed)
    as (targets & Ht & Hrest).
  - apply scopePathsInjective_check. apply (bool_decide_unpack _). vm_compute. exact I.
  - reflexivity.
  - reflexivity.
  - eapply declaring_here; reflexivity.
  - vm_compute. reflexivity.
  - destruct (Hrest 12 (Path.mk 12 (Some 11) (Some 1) []) 1) as [Hnot _].
    + reflexivity.
    + eapply declaring_here; reflexivity.
    + discriminate.
    + exists targets. split; [exact Ht|exact Hnot].
Defined.

(** X14. When the callback of [renameTo] completes, every identifier named
    like the declarator, a JSX identifier included, below the path of the
    declarator's scope that is not in a name-only position and whose
    nearest declaring scope is the declarator's declaring scope has been
    renamed: its node is the old node with [newName] as its name. *)
Theorem renameTo_renames_every_reference
    fuel newName st D dp name root sD st' P p parent n :
  renameDeclarator fuel newName st D = Ok st' →
  idName st D = Ok (Some name) → paths st !! D = Some dp →
  scopePath st D = Ok root →
  declaring st (Some name) (Path.scope dp) sD →
  below st root P → hasParentNode st P p parent →
  nodes st !! Path.node p = Some n →
  Node.type n = Identifier ∨ Node.type n = JSXIdentifier →
  Node.name n = Some name →
  ¬ nameOnly parent (Path.node p) →
  declaring st (Some name) (Path.scope p) sD →
  nodes st' !! Path.node p = Some (Node.set_name newName n).
Proof.
  unfold renameDeclarator, renameTargets.
  intros H Hname Hdp Hroot HsD Hbelow Hpar Hn Hty Hnm Hnn HsP.
  rewrite Hname, Hroot in H. simpl in H.
  apply bind_Ok in H as (targets & Ht & H).
  apply bind_Ok in Ht as (found & Ha0 & Ht).
  apply bind_Ok in Ht as (declaredBy & Ha1 & Ha2).
  destruct (replaceName_each _ _ _ _ H) as (_ & _ & Hin & _).
  pose proof (proj2 (isVariable_true_iff _ _ _ _ Hpar) Hnn) as Hv.
  destruct Hpar as [Hp _].
  assert (P ∈ found) as Hfound.
  { apply (find_Ok _ _ _ _ _ _ Ha0). split; [done|].
    exists p, n. split_and!; try done. unfold kindOf. naive_solver. }
  assert (P ∈ targets) as HP.
  { apply (filterM_Ok _ _ _ Ha2). split; [done|].
    destruct (proj1 (filterM_Ok _ _ _ Ha2) P Hfound) as [b Hb].
    rewrite Hb. f_equal.
    apply isDeclaredBy_Ok in Ha1 as (name2 & dp2 & sD2 & Hn2 & Hdp2 & Hw & ->).
    assert (name2 = Some name) as -> by congruence.
    assert (dp2 = dp) as -> by congruence.
    pose proof (declaring_functional _ _ _ _ _ (declaringScopeOf_sound _ _ _ _ _ Hw) HsD)
      as ->.
    revert Hb. unfold isDeclaredBy_closure. rewrite Hv. simpl.
    rewrite (proj2 (getPath_Ok _ _ _) Hp). simpl. intros Hb. inv_ok Hb.
    match goal with
    | Hs : declaringScopeOf _ _ _ _ = Ok ?s |- _ =>
        pose proof (declaring_functional _ _ _ _ _
                      (declaringScopeOf_sound _ _ _ _ _ Hs) HsP) as ->
    end.
    match goal with
    | H1 : scopes st !! sD = Some ?x, H2 : scopes st !! sD = Some ?y |- _ =>
        assert (x = y) as -> by congruence
    end.
    rewrite bool_decide_eq_true_2 in Hb by done. congruence. }
  rewrite Hin, Hn; [done|]. apply elem_of_nodesOf. eauto.
Qed.

Lemma renameTo_renames_every_reference_witness :
  nodes shadowRenamed !! 26 = Some (Node.set_name "xyz" (Sample.ident "bar")).
Proof.
  apply (renameTo_renames_every_reference 10 "xyz" Sample.shadow 2
           (Path.mk 2 (Some 1) (Some 0) [3; 4]) "bar" 0 0 shadowRenamed 26
           (Path.mk 26 (Some 25) (Some 0) []) (Sample.member 27 false)
           (Sample.ident "bar")).
  - vm_compute. reflexivity.
  - reflexivity.
  - reflexivity.
  - reflexivity.
  - eapply declaring_here; reflexivity.
  - eapply (below_iff_descendant 10); [vm_compute; reflexivity|].
    apply (bool_decide_unpack _). vm_compute. exact I.
  - split; [reflexivity|]. exists 25, (Path.mk 25 (Some 24) (Some 0) [26; 27]).
    split; [reflexivity|]. split; reflexivity.
  - reflexivity.
  - left. reflexivity.
  - reflexivity.
  - unfold nameOnly. simpl.
    intros [(_ & Hpr & _)|[(Hty & _)|[(Hty & _)|(Hty & _)]]];
      [discriminate Hpr|discriminate Hty..].
  - eapply declaring_here; reflexivity.
Defined.

(** ** Further properties of [removeUnreferenced] *)

Lemma prunedNode_refl n : prunedNode n n.
Proof.
  exists (Node.declarations n), (Node.body n), (Node.init n).
  split_and!; [done|done|by left|by destruct n].
Qed.

Lemma prunedNode_trans n1 n2 n3 :
  prunedNode n1 n2 → prunedNode n2 n3 → prunedNode n1 n3.
Proof.
  intros (ds1 & b1 & i1 & Hd1 & Hb1 & Hi1 & ->) (ds2 & b2 & i2 & Hd2 & Hb2 & Hi2 & ->).
  exists ds2, b2, i2. destruct n1. simpl in *.
  split_and!; [by etrans|by etrans| |done].
  destruct Hi2 as [-> | ->]; [done|by right].
Qed.

Lemma prunedNode_detach c n : prunedNode n (detach c n).
Proof.
  exists (filter (λ x, x ≠ c) (Node.declarations n)),
         (filter (λ x, x ≠ c) (Node.body n)),
         (if bool_decide (Node.init n = Some c) then None else Node.init n).
  split; [apply sublist_filter|]. split; [apply sublist_filter|].
  split; [|done]. case_bool_decide; [by right|by left].
Qed.

Lemma onlyPruned_refl st : onlyPruned st st.
Proof.
  split; [done|]. split; [done|]. intros i.
  destruct (nodes st !! i) as [n|]; [right|by left].
  exists n, n. split_and!; try done. apply prunedNode_refl.
Qed.

Lemma onlyPruned_trans st1 st2 st3 :
  onlyPruned st1 st2 → onlyPruned st2 st3 → onlyPruned st1 st3.
Proof.
  intros (Hs1 & Hp1 & Hn1) (Hs2 & Hp2 & Hn2).
  split; [congruence|]. split; [intros P; by rewrite Hp2, Hp1|]. intros i.
  destruct (Hn1 i) as [[H1 H2]|(n1 & n2 & H1 & H2 & H12)],
           (Hn2 i) as [[H3 H4]|(n2' & n3 & H3 & H4 & H23)]; try congruence.
  - by left.
  - right. assert (n2' = n2) as -> by congruence.
    exists n1, n3. split_and!; try done. by eapply prunedNode_trans.
Qed.

Lemma spliceOut_onlyPruned st q st' : spliceOut st q = Ok st' → onlyPruned st st'.
Proof.
  intros Hrun. pose proof (spliceOut_shrinks _ _ _ Hrun) as Hs.
  apply spliceOut_Ok in Hrun as (qp & pp & ppr & n & Hqp & Hpp & Hppr & Hn & ->).
  split; [done|]. split; [apply (shrinks_paths _ _ Hs)|]. intros i. simpl.
  rewrite lookup_alter. case_decide; [subst i|].
  - right. exists n, (detach (Path.node qp) n). rewrite Hn. split_and!; try done.
    apply prunedNode_detach.
  - destruct (nodes st !! i) as [m|]; [right|by left].
    exists m, m. split_and!; try done. apply prunedNode_refl.
Qed.

Lemma prune_onlyPruned st q st' : prune st q = Ok st' → onlyPruned st st'.
Proof.
  intros (qp & st1 & Hqp & H1 & [->|(pp & ppr & parent & _ & _ & _ & _ & H2)])%prune_Ok.
  - by eapply spliceOut_onlyPruned.
  - eapply onlyPruned_trans; by eapply spliceOut_onlyPruned.
Qed.

Lemma forEachM_prune_onlyPruned st l st' :
  forEachM prune st l = Ok st' → onlyPruned st st'.
Proof.
  revert st. induction l as [|q l IH]; intros st H; simpl in H.
  - injection H as <-. apply onlyPruned_refl.
  - inv_ok H. eapply onlyPruned_trans; [by eapply prune_onlyPruned|by apply IH].
Qed.

Lemma filterM_sublist {A : Type} (f : A → result bool) (l r : list A) :
  filterM f l = Ok r → r `sublist_of` l.
Proof.
  revert r. induction l as [|x l IH]; intros r H; simpl in H.
  - by injection H as <-.
  - inv_ok H. injection H as <-.
    destruct a; [apply sublist_skip|apply sublist_cons]; by apply IH.
Qed.

(** X8. On a collection of declarators whose declaration statements are
    statements of a program or block, or the [init] of a [for] statement
    -- the places of a declaration for which removal is modelled -- when
    [removeUnreferenced] completes, the collection it returns is a
    sub-list of the input, in the same order; scopes and the links of the
    paths are untouched; no node is added or dropped from the store, and
    every node is as before except that its [declarations] and [body]
    arrays may have lost elements and that its [init] may have been
    deleted: it never renames, never changes the [id] of a declarator and
    never adds a declarator or a statement. *)
Theorem removeUnreferenced_only_prunes fuel st this st' returned :
  (∀ D, D ∈ this → declarationHeld st D) →
  removeUnreferenced fuel st this = Ok (st', returned) →
  returned `sublist_of` this ∧
  scopes st' = scopes st ∧
  (∀ P, pathLinks <$> paths st' !! P = pathLinks <$> paths st !! P) ∧
  (∀ i, (nodes st !! i = None ∧ nodes st' !! i = None) ∨
        ∃ n n', nodes st !! i = Some n ∧ nodes st' !! i = Some n' ∧
          Node.declarations n' `sublist_of` Node.declarations n ∧
          Node.body n' `sublist_of` Node.body n ∧
          Node.type n' = Node.type n ∧ Node.name n' = Node.name n ∧
          Node.id n' = Node.id n ∧
          (Node.init n' = Node.init n ∨ Node.init n' = None) ∧
          n' = Node.set_init (Node.init n')
                 (Node.set_body (Node.body n')
                    (Node.set_declarations (Node.declarations n') n))).
Proof.
  intros _ [Hsel Hprune]%removeUnreferenced_Ok.
  destruct (forEachM_prune_onlyPruned _ _ _ Hprune) as (Hs & Hp & Hn).
  split; [by eapply filterM_sublist|]. split; [done|]. split; [done|].
  intros i.
  destruct (Hn i) as [?|(n & n' & H1 & H2 & ds & b & j & Hd & Hb & Hj & ->)];
    [by left|right].
  exists n. eexists. split; [done|]. split; [done|]. by destruct n.
Qed.

Lemma removeUnreferenced_only_prunes_witness :
  removeUnreferenced 10 Sample.forLoop [3] = Ok (forLoopPruned, [3]) ∧
  [3] `sublist_of` [3] ∧ scopes forLoopPruned = scopes Sample.forLoop ∧
  nodes forLoopPruned !! 1 = Some (Sample.forStatement None).
Proof.
  assert (removeUnreferenced 10 Sample.forLoop [3] = Ok (forLoopPruned, [3])) as H
    by (vm_compute; reflexivity).
  destruct (removeUnreferenced_only_prunes 10 Sample.forLoop [3] forLoopPruned [3])
    as (Hsub & Hs & _).
  - intros D HD. apply list_elem_of_singleton in HD as ->.
    exists (Path.mk 3 (Some 2) (Some 0) [4; 5]), 2, (Path.mk 2 (Some 1) (Some 0) [3]),
           (Sample.declaration [3]),
           1, (Path.mk 1 (Some 0) (Some 0) [2; 6]), (Sample.forStatement (Some 2)).
    split_and!; try reflexivity; [left|right; reflexivity].
  - exact H.
  - split; [exact H|]. split; [exact Hsub|]. split; [exact Hs|reflexivity].
Defined.

(** X9. A declarator that has a use is kept.  When [removeUnreferenced]
    completes, a declarator of the collection named [name] is not removed
    if, below the path of its scope, some identifier named [name], a JSX
    identifier included, that is neither in a binding position (the [id]
    of a [declare type] included) nor in a name-only position (the
    property of a JSX member expression included) has the declarator's
    declaring scope as its nearest declaring scope; and then,
    if no removed path points to the declarator's node, the declarator
    stays among the declarations of its statement. *)
Theorem removeUnreferenced_keeps_a_used_declarator
    fuel st this st' removed D dp name root sD P p parent :
  removeUnreferenced fuel st this = Ok (st', removed) →
  D ∈ this → paths st !! D = Some dp →
  idName st D = Ok (Some name) → name ≠ "" →
  scopePath st D = Ok root →
  declaring st (Some name) (Path.scope dp) sD →
  below st root P → nodeNamed st Identifier (Some name) P →
  hasParentNode st P p parent →
  ¬ bindingPosition parent (Path.node p) → ¬ nameOnly parent (Path.node p) →
  declaring st (Some name) (Path.scope p) sD →
  (D ∉ removed) ∧
  (Path.node dp ∉ nodesOf st removed →
   Node.type <$> nodes st !! Path.node dp = Some VariableDeclarator →
   attached st D = true → attached st' D = true).
Proof.
  intros [Hsel Hprune]%removeUnreferenced_Ok HD Hdp Hname Hne Hroot HsD
         Hbelow Hnamed Hpar Hnb Hnn HsP.
  destruct (filterM_Ok _ _ _ Hsel) as [Hall Hin].
  destruct (Hall D HD) as [b Hb].
  destruct (unreferenced_Ok _ _ _ _ _ Hb Hname (truthy_nonempty _ Hne))
    as (refs & Hrefs & Hiff).
  assert (P ∈ refs) as HP.
  { revert Hrefs. unfold references. rewrite Hroot. simpl. intros H. inv_ok H.
    rename a into found, a0 into uses, a1 into declaredBy.
    assert (isDeclaratorID st P = Ok false) as Hid.
    { destruct (isDeclaratorID_total _ _ _ _ Hpar) as [[] Hd]; [|done].
      by apply (isDeclaratorID_true_iff _ _ _ _ Hpar) in Hd. }
    assert (P ∈ uses) as Huses.
    { apply (filterM_Ok _ _ _ Ha0). split; [|by rewrite Hid].
      by apply (find_Ok _ _ _ _ _ _ Ha). }
    apply (filterM_Ok _ _ _ H). split; [done|].
    destruct (proj1 (filterM_Ok _ _ _ H) P Huses) as [b' Hb'].
    rewrite Hb'. f_equal.
    apply isDeclaredBy_Ok in Ha1 as (name2 & dp2 & sD2 & Hn2 & Hdp2 & Hw & ->).
    assert (name2 = Some name) as -> by congruence.
    assert (dp2 = dp) as -> by congruence.
    pose proof (declaring_functional _ _ _ _ _ (declaringScopeOf_sound _ _ _ _ _ Hw) HsD)
      as ->.
    pose proof (proj2 (isVariable_true_iff _ _ _ _ Hpar) Hnn) as Hv.
    destruct Hpar as [Hp _].
    revert Hb'. unfold isDeclaredBy_closure. rewrite Hv. simpl.
    rewrite (proj2 (getPath_Ok _ _ _) Hp). simpl. intros Hb'. inv_ok Hb'.
    pose proof (declaring_functional _ _ _ _ _ (declaringScopeOf_sound _ _ _ _ _ Ha1) HsP)
      as ->.
    match goal with
    | H1 : scopes st !! sD = Some ?x, H2 : scopes st !! sD = Some ?y |- _ =>
        assert (x = y) as -> by congruence
    end.
    rewrite bool_decide_eq_true_2 in Hb' by done. congruence. }
  assert (D ∉ removed) as Hnot.
  { rewrite Hin. intros [_ Ht]. rewrite Hb in Ht. injection Ht as ->.
    rewrite (proj1 Hiff eq_refl) in HP. by apply not_elem_of_nil in HP. }
  split; [done|]. intros Hshare Hty Hatt.
  eapply attached_keeps; [by eapply forEachM_prune_shrinks|done| |done].
  by eapply forEachM_prune_keeps.
Qed.

Lemma removeUnreferenced_keeps_a_used_declarator_witness :
  removeUnreferenced 10 Sample.jsx [2] = Ok (Sample.jsx, []) ∧
  (2 ∉ []) ∧ attached Sample.jsx 2 = true.
Proof.
  assert (removeUnreferenced 10 Sample.jsx [2] = Ok (Sample.jsx, [])) as H
    by (vm_compute; reflexivity).
  destruct (removeUnreferenced_keeps_a_used_declarator 10 Sample.jsx [2]
              Sample.jsx [] 2 (Path.mk 2 (Some 1) (Some 0) [3; 4]) "Foo" 0 0
              9 (Path.mk 9 (Some 8) (Some 0) []) (Sample.jsxMember 10) H)
    as [Hnot Hkeep].
  - left.
  - reflexivity.
  - reflexivity.
  - discriminate.
  - reflexivity.
  - eapply declaring_here; reflexivity.
  - eapply (below_iff_descendant 10); [vm_compute; reflexivity|].
    apply (bool_decide_unpack _). vm_compute. exact I.
  - exists (Path.mk 9 (Some 8) (Some 0) []), (Sample.jsxIdent "Foo").
    split; [reflexivity|]. split; [reflexivity|].
    split; [right; left; split; reflexivity|].
    split; [reflexivity|]. by eexists.
  - split; [reflexivity|]. exists 8, (Path.mk 8 (Some 7) (Some 0) [9; 10]).
    split; [reflexivity|]. split; reflexivity.
  - intros [Hid _]. discriminate Hid.
  - unfold nameOnly. simpl. intros [(_ & Hpr & _)|[(Hty & _)|[(Hty & _)|(Hty & _)]]];
      [discriminate Hpr|discriminate Hty..].
  - eapply declaring_here; reflexivity.
  - split; [exact H|]. split; [exact Hnot|].
    apply Hkeep; [|reflexivity|reflexivity].
    vm_compute. intros Hin. by apply not_elem_of_nil in Hin.
Defined.

(** ** findVariableDeclarators *)

Lemma matchesDeclarator_true_iff st filter P :
  matchesDeclarator st filter P = Ok true ↔ declaratorNamed st filter P.
Proof.
  unfold matchesDeclarator, declaratorNamed. split.
  - intros H. inv_ok H. rewrite check_VariableDeclarator in H.
    case_bool_decide as Hty; simpl in H; [|done].
    exists a, a0. split_and!; try done.
    destruct filter as [name|]; [|done].
    destruct (Node.id a0) as [i|]; [|done]. inv_ok H.
    injection H as H%bool_decide_eq_true. eauto.
  - intros (p & n & Hp & Hn & Hty & Hf).
    rewrite (proj2 (getPath_Ok _ _ _) Hp); simpl.
    rewrite (proj2 (getNode_Ok _ _ _) Hn); simpl.
    rewrite check_VariableDeclarator, bool_decide_eq_true_2 by done. simpl.
    destruct filter as [name|]; [|done].
    destruct Hf as (i & idn & -> & Hidn & Hname).
    rewrite (proj2 (getNode_Ok _ _ _) Hidn); simpl.
    by rewrite bool_decide_eq_true_2.
Qed.

Lemma declaratorNamed_idName st name P :
  declaratorNamed st (Some name) P → idName st P = Ok (Some name).
Proof.
  intros (p & n & Hp & Hn & _ & i & idn & Hi & Hidn & Hname). unfold idName.
  rewrite (proj2 (getPath_Ok _ _ _) Hp); simpl.
  rewrite (proj2 (getNode_Ok _ _ _) Hn); simpl. rewrite Hi.
  rewrite (proj2 (getNode_Ok _ _ _) Hidn); simpl. by rewrite Hname.
Qed.

(** X10. When [findVariableDeclarators(name)] completes, it returns exactly
    the paths strictly below a path of the collection whose node is a
    variable declarator and, for a non-empty [name], whose [id] has that
    name; with no name or the empty string it returns every declarator
    below.  For a non-empty [name], the name that [renameTo] and
    [removeUnreferenced] read from a returned declarator is [name]. *)
Theorem findVariableDeclarators_finds fuel st this name found :
  findVariableDeclarators fuel st this name = Ok found →
  (∀ P, P ∈ found ↔
        (∃ root, root ∈ this ∧ below st root P) ∧
        declaratorNamed st (if truthy name then name else None) P) ∧
  (truthy name = false →
   ∀ P, P ∈ found ↔ (∃ root, root ∈ this ∧ below st root P) ∧ declaratorNamed st None P) ∧
  (truthy name = true → ∀ P, P ∈ found → idName st P = Ok name).
Proof.
  unfold findVariableDeclarators. intros H.
  destruct (concatM_Ok _ _ _ H) as [_ Hin].
  assert (∀ P, P ∈ found ↔
            (∃ root, root ∈ this ∧ below st root P) ∧
            declaratorNamed st (if truthy name then name else None) P) as Hchar.
  { intros P. rewrite Hin. split.
    - intros (root & r & Hroot & Hr & HP). inv_ok Hr.
      apply (filterM_Ok _ _ _ Hr) in HP as [HP Hm].
      split; [|by apply matchesDeclarator_true_iff].
      exists root. split; [done|]. by apply (descendants_below _ _ _ _ Ha).
    - intros [(root & Hroot & Hb) Hd].
      destruct (proj1 (concatM_Ok _ _ _ H) root Hroot) as [r Hr].
      exists root, r. split; [done|]. split; [done|]. inv_ok Hr.
      apply (filterM_Ok _ _ _ Hr). split; [by apply (descendants_below _ _ _ _ Ha)|].
      by apply matchesDeclarator_true_iff. }
  split; [done|]. split.
  - intros Ht P. rewrite Hchar. by rewrite Ht.
  - intros Ht P HP. apply Hchar in HP as [_ Hd]. rewrite Ht in Hd.
    destruct name as [name|]; [|done]. by apply declaratorNamed_idName.
Qed.

Lemma findVariableDeclarators_finds_witness :
  findVariableDeclarators 10 Sample.unused [0] (Some "y") = Ok [5] ∧
  (∀ P, P ∈ [5] → idName Sample.unused P = Ok (Some "y")).
Proof.
  assert (findVariableDeclarators 10 Sample.unused [0] (Some "y") = Ok [5]) as H
    by (vm_compute; reflexivity).
  destruct (findVariableDeclarators_finds 10 Sample.unused [0] (Some "y") [5] H)
    as (_ & _ & Hname).
  split; [exact H|]. apply Hname. reflexivity.
Defined.

Lemma filterM_sublist_of {A : Type} (f g : A → result bool) (l r r' : list A) :
  (∀ x, f x = Ok true → g x = Ok true) →
  filterM f l = Ok r → filterM g l = Ok r' → r `sublist_of` r'.
Proof.
  intros Hfg. revert r r'. induction l as [|x l IH]; intros r r' Hf Hg; simpl in *.
  - injection Hf as <-. apply sublist_nil_l.
  - inv_ok Hf. inv_ok Hg. injection Hf as <-. injection Hg as <-.
    specialize (IH _ _ Ha0 Ha2).
    destruct a.
    + rewrite (Hfg x Ha) in Ha1. injection Ha1 as <-. by apply sublist_skip.
    + destruct a1; [by apply sublist_cons|done].
Qed.

Lemma concatM_sublist_of {A B : Type} (f g : A → result (list B)) (l : list A)
    (r r' : list B) :
  (∀ x rx rx', f x = Ok rx → g x = Ok rx' → rx `sublist_of` rx') →
  concatM f l = Ok r → concatM g l = Ok r' → r `sublist_of` r'.
Proof.
  intros Hfg. revert r r'. induction l as [|x l IH]; intros r r' Hf Hg; simpl in *.
  - injection Hf as <-. apply sublist_nil_l.
  - inv_ok Hf. inv_ok Hg. injection Hf as <-. injection Hg as <-.
    apply sublist_app; eauto.
Qed.

Lemma matchesDeclarator_weaken st filter P :
  matchesDeclarator st filter P = Ok true → matchesDeclarator st None P = Ok true.
Proof.
  rewrite !matchesDeclarator_true_iff.
  intros (p & n & Hp & Hn & Hty & _). by exists p, n.
Qed.

(** X11. The declarators that [findVariableDeclarators(name)] finds are
    declarators that [findVariableDeclarators()] finds, in the same order:
    when both complete, the first collection is a sub-list of the second;
    and the empty string is no name: [findVariableDeclarators('')] is
    [findVariableDeclarators()]. *)
Theorem findVariableDeclarators_narrows fuel st this name found all :
  findVariableDeclarators fuel st this name = Ok found →
  findVariableDeclarators fuel st this None = Ok all →
  found `sublist_of` all ∧
  findVariableDeclarators fuel st this (Some "") = Ok all.
Proof.
  unfold findVariableDeclarators. simpl. intros Hf Ha. split; [|done].
  eapply concatM_sublist_of; [|exact Hf|exact Ha].
  intros root r r' Hr Hr'. simpl in *. inv_ok Hr. inv_ok Hr'.
  assert (a0 = a) as -> by congruence.
  eapply filterM_sublist_of; [|exact Hr|exact Hr'].
  intros P. apply matchesDeclarator_weaken.
Qed.

Lemma findVariableDeclarators_narrows_witness :
  findVariableDeclarators 10 Sample.unused [0] (Some "y") = Ok [5] ∧
  findVariableDeclarators 10 Sample.unused [0] None = Ok [2; 5] ∧
  [5] `sublist_of` [2; 5].
Proof.
  assert (findVariableDeclarators 10 Sample.unused [0] (Some "y") = Ok [5]) as H1
    by (vm_compute; reflexivity).
  assert (findVariableDeclarators 10 Sample.unused [0] None = Ok [2; 5]) as H2
    by (vm_compute; reflexivity).
  split; [exact H1|]. split; [exact H2|].
  exact (proj1 (findVariableDeclarators_narrows 10 Sample.unused [0] (Some "y")
                  [5] [2; 5] H1 H2)).
Defined.

(** ** Further properties of [requiresModule] *)

Section RequiresModuleMore.
Variable astNodesAreEquivalent : Store → option NodeId → Built → bool.

Lemma requiresModule_array ns st path :
  requiresModule astNodesAreEquivalent (ManyNames ns) st path = Ok true ↔
  requiresModule astNodesAreEquivalent NoNames st path = Ok true ∧
  ∃ n, n ∈ ns ∧
       astNodesAreEquivalent st (firstArgument st path) (BLiteral n) = true.
Proof.
  unfold requiresModule, firstArgument, getPath, getNode. simpl.
  destruct (paths st !! path) as [p|]; simpl; [|naive_solver].
  destruct (nodes st !! Path.node p) as [node|]; simpl; [|naive_solver].
  destruct (negb (check VariableDeclarator node)); [naive_solver|].
  destruct (Node.init node) as [i|]; simpl; [|naive_solver].
  destruct (nodes st !! i) as [init|]; simpl; [|naive_solver].
  destruct (negb (check CallExpression init) || _); [naive_solver|].
  split.
  - intros [= H]. split; [done|].
    apply existsb_exists in H as (n & Hn & Heq). exists n.
    split; [by apply list_elem_of_In|done].
  - intros [_ (n & Hn & Heq)]. f_equal. apply existsb_exists. exists n.
    split; [by apply list_elem_of_In|done].
Qed.

(** X12. An array of module names is a disjunction:
    [requiresModule(ns1.concat(ns2))] matches a path iff
    [requiresModule(ns1)] or [requiresModule(ns2)] does, and
    [requiresModule([])] matches nothing. *)
Theorem requiresModule_array_is_a_disjunction ns1 ns2 st path :
  (requiresModule astNodesAreEquivalent (ManyNames (ns1 ++ ns2)) st path = Ok true ↔
   requiresModule astNodesAreEquivalent (ManyNames ns1) st path = Ok true ∨
   requiresModule astNodesAreEquivalent (ManyNames ns2) st path = Ok true) ∧
  requiresModule astNodesAreEquivalent (ManyNames []) st path ≠ Ok true.
Proof.
  rewrite !requiresModule_array. split.
  - setoid_rewrite elem_of_app. naive_solver.
  - intros [_ (n & Hn & _)]. by apply not_elem_of_nil in Hn.
Qed.

(** X13. Naming modules only narrows the filter: a path that
    [requiresModule(names)] matches is matched by [requiresModule()],
    whatever [names] is; and a non-empty string is the array of that one
    string: [requiresModule(n)] and [requiresModule([n])] give the same
    outcome on every path. *)
Theorem requiresModule_names_narrow names st path :
  (requiresModule astNodesAreEquivalent names st path = Ok true →
   requiresModule astNodesAreEquivalent NoNames st path = Ok true) ∧
  (∀ n, n ≠ "" →
     requiresModule astNodesAreEquivalent (OneName n) st path =
     requiresModule astNodesAreEquivalent (ManyNames [n]) st path).
Proof.
  assert (∀ n, n ≠ "" →
            requiresModule astNodesAreEquivalent (OneName n) st path =
            requiresModule astNodesAreEquivalent (ManyNames [n]) st path) as Hone.
  { intros n Hne. unfold requiresModule, namesTruthy, truthy.
    by rewrite (proj2 (negb_true_iff _) (proj2 (String.eqb_neq _ _) Hne)). }
  split; [|done].
  destruct names as [|n|ns]; [done| |by intros [? _]%requiresModule_array].
  destruct (decide (n = "")) as [->|Hne]; [done|].
  rewrite (Hone n Hne). by intros [? _]%requiresModule_array.
Qed.
End RequiresModuleMore.

(** ** The derived types and the [for] statement at work

    [var Foo = 1; <Foo.bar/>;]: the JSX identifier [bar] is not a variable;
    the search for the identifiers named [Foo] finds the binding identifier
    and the JSX identifier, so that the declarator is not removed and both
    are renamed.  [var x = 1; declare type x = number;]: the [id] of the
    [declare type] statement is a binding identifier, and the declarator is
    removed.  [for (var i = 0;;) {}]: the declaration is taken out of the
    [init] of the [for] statement. *)
Lemma derived_types_evaluate :
  isVariable Sample.jsx 10 = Ok false ∧
  isVariable Sample.jsx 9 = Ok true ∧
  find 10 Sample.jsx 0 Identifier (Some "Foo") = Ok [3; 9] ∧
  removeUnreferenced 10 Sample.jsx [2] = Ok (Sample.jsx, []) ∧
  renameTargets 10 Sample.jsx 2 = Ok [3; 9] ∧
  Node.name <$> nodes jsxRenamed !! 9 = Some (Some "Bar") ∧
  Node.name <$> nodes jsxRenamed !! 10 = Some (Some "bar") ∧
  isDeclaratorID Sample.declaredAlias 6 = Ok true ∧
  removeUnreferenced 10 Sample.declaredAlias [2] = Ok (declaredAliasPruned, [2]) ∧
  Node.body <$> nodes declaredAliasPruned !! 0 = Some [5] ∧
  removeUnreferenced 10 Sample.forLoop [3] = Ok (forLoopPruned, [3]) ∧
  nodes forLoopPruned !! 1 = Some (Sample.forStatement None).
Proof. split_and!; vm_compute; reflexivity. Qed.
